(** * MTA subway realtime sensor: a shallow embedding of [sensor.py]

    The development follows [custom_components/mta_subway/sensor.py]:
    the station directory loader ([__get_stations]), the feed fetcher and
    decoder ([__get_realtime_data]), the aggregation loop and the throttled
    [MTASubwayData.update], and the read path of [MTASubwaySensor.update].

    Python values are modelled as follows.
    - [str] is [string]; [bytes] is [list byte]; [None]-or-[str] is
      [option string].
    - [int] is [Z]; [float] is an IEEE 754 binary64 number, [spec_float]
      with [prec = 53] and [emax = 1024].
    - [dict] and [defaultdict] are [gmap]; a [defaultdict(list)] lookup of
      a missing key inserts the empty list, which is written out.
    - an exception is a value of [exn]; code that may raise returns a
      [result]; code that reads or writes [self] runs in the monad [M]. *)

From Stdlib Require Import ZArith Zpower Lia Strings.Byte Strings.Ascii Strings.String.
From Stdlib Require Import Floats.SpecFloat.
From stdpp Require Import gmap strings list fin_maps sorting pretty.

Local Open Scope string_scope.
Local Open Scope list_scope.
Local Open Scope Z_scope.

(** ** Python strings *)

(** [s[:-1]]: the string without its final character; [""[:-1]] is [""]. *)
Fixpoint drop_last (s : string) : string :=
  match s with
  | EmptyString => EmptyString
  | String c rest =>
      match rest with
      | EmptyString => EmptyString
      | String _ _ => String c (drop_last rest)
      end
  end.

(** ** Python floats: [float(int)], [/] and [math.ceil] *)

Definition prec : Z := 53.
Definition emax : Z := 1024.

(** [float(x)] for an [int]: the nearest binary64 number, ties to even.
    Python raises [OverflowError] from [2^1024 - 2^970] on; the difference
    of an [int64] protobuf field and the clock stays far below that. *)
Definition float_of_int (x : Z) : spec_float :=
  binary_normalize prec emax x 0 false.

(** [a / b] on floats (the divisor here is never zero). *)
Definition float_div (a b : spec_float) : spec_float := SFdiv prec emax a b.

(** The ceiling of the rational [a / b] for [0 < b]. *)
Definition Zceil_div (a b : Z) : Z := - ((- a) / b).

(** [math.ceil(f)]: the least integer not below the value
    [(-1)^s * m * 2^e] of a finite float.  Python raises on infinities and
    NaN, which a quotient by [60.0] of a finite float never is. *)
Definition math_ceil (f : spec_float) : Z :=
  match f with
  | S754_finite s m e =>
      if 0 <=? e then cond_Zopp s (Z.pos m * 2 ^ e)
      else Zceil_div (cond_Zopp s (Z.pos m)) (2 ^ (- e))
  | _ => 0
  end.

(** [math.ceil(float(arrival - current_time) / 60)] (line 236). *)
Definition time_until_of (arrival current_time : Z) : Z :=
  math_ceil (float_div (float_of_int (arrival - current_time)) (float_of_int 60)).

(** ** Feed messages (the fields of [gtfs_realtime_pb2] the code reads) *)

Record StopTimeUpdate := {
  stop_id : string;
  arrival_time : Z          (* [arrival.time], an int64; 0 when unset *)
}.

Record TripUpdate := {
  route_id : string;        (* [trip.route_id] *)
  stop_time_update : list StopTimeUpdate
}.

Record FeedEntity := {
  trip_update : option TripUpdate   (* [None]: [HasField("trip_update")] is false *)
}.

Record FeedMessage := {
  header_timestamp : Z;     (* [header.timestamp], a uint64 *)
  entity : list FeedEntity
}.

(** ** The published data *)

(** One element of [arrivals[stop_id]] (lines 232-237). *)
Record Arrival := {
  time : Z;
  line : string;
  last_updated : Z;
  time_until : Z
}.

(** One value of the station directory (lines 164-169).  A field is [None]
    when the row was shorter than the header. *)
Record Station := {
  stop_name : option string;
  south_direction_label : option string;
  north_direction_label : option string;
  complex_id : option string
}.

(** The directory is keyed by [row["GTFS Stop ID"]], which is [None] for
    a row too short to reach that column. *)
Abbreviation StationDirectory := (gmap (option string) Station).
Abbreviation ArrivalsMap := (gmap string (list Arrival)).

(** The values stored under the keys of [self.data]. *)
Inductive SnapshotValue :=
| Stations (d : StationDirectory)
| Arrivals (a : ArrivalsMap).

Abbreviation Snapshot := (gmap string SnapshotValue).

(** ** Exceptions and results *)

Inductive exn :=
| RequestException          (* [requests.get] did not complete *)
| CsvError                  (* [csv.Error] raised by the reader *)
| KeyError (k : string)     (* [d[k]] on a [dict] without [k] *)
| IndexError                (* [l[0]] on an empty list *)
| TypeError                 (* subscripting or concatenating [None] *)
| BadStationId (k : string). (* [Exception("Bad station id: ...")], line 142 *)

Inductive result (A : Type) :=
| Ok (a : A)
| Raise (e : exn).
Arguments Ok {A} a.
Arguments Raise {A} e.

(** ** HTTP *)

Record Response := {
  url : string;
  status_code : Z;
  content : list byte
}.

(** What the records of the journal stand for: the network calls made and
    the records logged at level ERROR, each with the url or the exception
    it is about.  (Records at level DEBUG are left out.) *)
Inductive Event :=
| GetStations                       (* [requests.get(url)], line 159 *)
| PoolGet (feed_ids : list Z)       (* [pool.Pool.from_urls(urls)], line 180 *)
| LogNon200 (u : string)            (* "Non-200 response while fetching ..." *)
| LogParseFailure (u : string)      (* "Failure to parse fetched message" *)
| LogSensorError (e : exn).         (* "Error updating sensor", line 148 *)

Definition SCAN_INTERVAL : Z := 20 * 1000000.   (* timedelta(seconds=20), in microseconds *)
Definition FEED_IDS : list Z := [1; 26; 16; 21; 2; 11; 31; 36; 51].

(** ** The csv module *)

(** The rows a [csv.reader] yields, ending normally or with [csv.Error]. *)
Inductive RowStream :=
| EndOfRows
| Row (fields : list string) (rest : RowStream)
| RowError.

(** [dict(zip(fieldnames, row))] followed by the [restval] loop of
    [DictReader.__next__]: later columns of the same name win, and the
    columns the row does not reach are [None].  (The surplus fields of a
    long row go under the key [None], which no lookup below uses.) *)
Definition dict_of_row (fieldnames row : list string) : gmap string (option string) :=
  let d := foldl (λ d kv, <[kv.1 := Some kv.2]> d) ∅ (zip fieldnames row) in
  foldl (λ d k, <[k := None]> d) d (drop (length row) fieldnames).

(** [row[k]] *)
Definition getitem (d : gmap string (option string)) (k : string) : result (option string) :=
  match d !! k with
  | Some v => Ok v
  | None => Raise (KeyError k)
  end.

(** ** The objects *)

Record MTASubwayData := {
  data : option Snapshot;            (* [self.data], [None] until published *)
  api_key : string;
  watched_stations : list string;
  throttle_last : option Z;          (* [self._throttle[...][1]], set by [Throttle] *)
  journal : list Event               (* not an attribute: the calls made and the
                                        records logged so far *)
}.

Record MTASubwaySensor := {
  _name : option string;
  _station_id : string;
  _state : option Z;
  _arrivals : option (list Arrival);
  _station_name : option string;
  _station_direction_label : option string
}.

(** [MTASubwayData.__init__] *)
Definition MTASubwayData_init (key : string) (watched : list string) : MTASubwayData :=
  {| data := None; api_key := key; watched_stations := watched;
     throttle_last := None; journal := [] |}.

(** [MTASubwaySensor.__init__] *)
Definition MTASubwaySensor_init (station_id : string) : MTASubwaySensor :=
  {| _name := None; _station_id := station_id; _state := None; _arrivals := None;
     _station_name := None; _station_direction_label := None |}.

(** What the outside answers during one call of [update]: the clock, the
    station request and the pool of feed requests.  Clock readings of
    [utcnow()] are in microseconds; [time_time] is [int(time.time())]. *)
Record Env := {
  utcnow_check : Z;                  (* [utcnow()] when [Throttle] tests the interval *)
  stations_reply : result Response;  (* [requests.get(url)] *)
  pool_responses : list Response;    (* [p.responses()] after [p.join_all()] *)
  time_time : Z;                     (* [int(time.time())], line 218 *)
  utcnow_done : Z                    (* [utcnow()] after the method returned *)
}.

(** ** A state and exception monad over [self] *)

#[global] Instance result_ret : MRet result := @Ok.
#[global] Instance result_bind : MBind result :=
  λ A B f r, match r with Ok a => f a | Raise e => Raise e end.

Definition M (A : Type) : Type := MTASubwayData → result A * MTASubwayData.

#[global] Instance M_ret : MRet M := λ A a self, (Ok a, self).
#[global] Instance M_bind : MBind M :=
  λ A B f c self,
    match c self with
    | (Ok a, self') => f a self'
    | (Raise e, self') => (Raise e, self')
    end.

Definition lift {A} (r : result A) : M A := λ self, (r, self).
Definition get_self : M MTASubwayData := λ self, (Ok self, self).

Definition emit (ev : Event) : M unit :=
  λ self, (Ok (),
           {| data := data self; api_key := api_key self;
              watched_stations := watched_stations self;
              throttle_last := throttle_last self;
              journal := journal self ++ [ev] |}).

Definition set_data (d : Snapshot) : M unit :=
  λ self, (Ok (),
           {| data := Some d; api_key := api_key self;
              watched_stations := watched_stations self;
              throttle_last := throttle_last self;
              journal := journal self |}).

Definition set_throttle_last (t : Z) : M unit :=
  λ self, (Ok (),
           {| data := data self; api_key := api_key self;
              watched_stations := watched_stations self;
              throttle_last := Some t;
              journal := journal self |}).

(** ** The station directory loader *)

(** The loop of lines 162-169 over the rows after the header.  A blank
    row is skipped by [DictReader.__next__]; the right-hand side of the
    assignment is evaluated before the key on its left. *)
Fixpoint read_station_rows (fieldnames : list string) (rows : RowStream)
    (acc : StationDirectory) : result StationDirectory :=
  match rows with
  | EndOfRows => Ok acc
  | RowError => Raise CsvError
  | Row [] rest => read_station_rows fieldnames rest acc
  | Row fields rest =>
      let row := dict_of_row fieldnames fields in
      match getitem row "Stop Name" with
      | Raise e => Raise e
      | Ok name =>
      match getitem row "South Direction Label" with
      | Raise e => Raise e
      | Ok south =>
      match getitem row "North Direction Label" with
      | Raise e => Raise e
      | Ok north =>
      match getitem row "Complex ID" with
      | Raise e => Raise e
      | Ok complex =>
      match getitem row "GTFS Stop ID" with
      | Raise e => Raise e
      | Ok gtfs_stop_id =>
          read_station_rows fieldnames rest
            (<[gtfs_stop_id := {| stop_name := name;
                                  south_direction_label := south;
                                  north_direction_label := north;
                                  complex_id := complex |}]> acc)
      end end end end end
  end.

(** [csv.DictReader] over the rows: the first row is the header; a
    reader with no row at all gives no header and no iteration. *)
Definition read_stations (rows : RowStream) : result StationDirectory :=
  match rows with
  | EndOfRows => Ok ∅
  | RowError => Raise CsvError
  | Row fieldnames rest => read_station_rows fieldnames rest ∅
  end.

(** ** The aggregation loop (lines 216-237) *)

(** [arrivals[stop_id].append(a)] on a [defaultdict(list)] *)
Definition append_arrival (k : string) (a : Arrival) (arrivals : ArrivalsMap) : ArrivalsMap :=
  <[k := default [] (arrivals !! k) ++ [a]]> arrivals.

(** [d[k]] on a [defaultdict(list)]: a missing key is inserted with [[]]. *)
Definition defaultdict_getitem (k : string) (arrivals : ArrivalsMap)
    : list Arrival * ArrivalsMap :=
  match arrivals !! k with
  | Some v => (v, arrivals)
  | None => ([], <[k := []]> arrivals)
  end.

Section Aggregation.
Variable watched : list string.
Variable stations : StationDirectory.
Variable current_time : Z.

(** The test of line 231. *)
Definition retained (stop : string) : bool :=
  bool_decide (stop ∈ watched)
  && bool_decide (is_Some (stations !! Some (drop_last stop))).

(** The dictionary of lines 232-237. *)
Definition make_arrival (header_ts : Z) (route : string) (stu : StopTimeUpdate) : Arrival :=
  {| time := arrival_time stu;
     line := route;
     last_updated := header_ts;
     time_until := time_until_of (arrival_time stu) current_time |}.

Definition visit_stop_time_update (header_ts : Z) (route : string)
    (arrivals : ArrivalsMap) (stu : StopTimeUpdate) : ArrivalsMap :=
  if retained (stop_id stu)
  then append_arrival (stop_id stu) (make_arrival header_ts route stu) arrivals
  else arrivals.

Definition visit_entity (header_ts : Z) (arrivals : ArrivalsMap) (ent : FeedEntity)
    : ArrivalsMap :=
  match trip_update ent with
  | Some tu =>
      foldl (visit_stop_time_update header_ts (route_id tu)) arrivals (stop_time_update tu)
  | None => arrivals
  end.

Definition visit_feed (arrivals : ArrivalsMap) (feed : FeedMessage) : ArrivalsMap :=
  foldl (visit_entity (header_timestamp feed)) arrivals (entity feed).

Definition collect_arrivals (realtime_data : list FeedMessage) : ArrivalsMap :=
  foldl visit_feed ∅ realtime_data.
End Aggregation.

(** ** [list.sort(key=lambda x: x["time"])] *)

(** Python's sort is a stable ascending sort; so is this insertion sort,
    and a stable sort of a list by a total preorder has one result. *)
Fixpoint insert_by_time (a : Arrival) (l : list Arrival) : list Arrival :=
  match l with
  | [] => [a]
  | b :: rest => if time b <? time a then b :: insert_by_time a rest else a :: l
  end.

Definition sort_by_time (l : list Arrival) : list Arrival :=
  foldr insert_by_time [] l.

(** ** [MTASubwayData] *)

Section Data.
(** [csv.reader(r.text.splitlines(), delimiter=',')] as a function of the
    body, and [FeedMessage.ParseFromString], [None] when it raises. *)
Variable csv_reader : list byte → RowStream.
Variable ParseFromString : list byte → option FeedMessage.

(** [__get_stations]: the status code of the reply is not looked at. *)
Definition get_stations (env : Env) : M StationDirectory :=
  _ ← emit GetStations;
  r ← lift (stations_reply env);
  lift (read_stations (csv_reader (content r))).

(** The loop of lines 185-197. *)
Fixpoint decode_responses (responses : list Response) (acc : list FeedMessage)
    : M (list FeedMessage) :=
  match responses with
  | [] => mret acc
  | response :: rest =>
      if bool_decide (status_code response ≠ 200) then
        _ ← emit (LogNon200 (url response));
        decode_responses rest acc
      else
        match ParseFromString (content response) with
        | Some feed => decode_responses rest (acc ++ [feed])
        | None =>
            _ ← emit (LogParseFailure (url response));
            decode_responses rest acc
        end
  end.

(** [__get_realtime_data] *)
Definition get_realtime_data (env : Env) : M (list FeedMessage) :=
  _ ← emit (PoolGet FEED_IDS);
  decode_responses (pool_responses env) [].

(** The body of [update], lines 212-245. *)
Definition update_body (env : Env) : M unit :=
  stations ← get_stations env;
  realtime_data ← get_realtime_data env;
  self ← get_self;
  let arrivals :=
    collect_arrivals (watched_stations self) stations (time_time env) realtime_data in
  let arrivals := sort_by_time <$> arrivals in
  set_data (<["arrivals" := Arrivals arrivals]> {["stations" := Stations stations]}).

(** [homeassistant.util.Throttle(SCAN_INTERVAL)] around the body: the
    method runs when it never completed before or when more than the
    interval has passed since it last completed; the time of completion
    is recorded only when the method returns, not when it raises.  The
    lock of the decorator is left out: calls do not overlap here. *)
Definition throttled (env : Env) (self : MTASubwayData) : bool :=
  match throttle_last self with
  | None => false
  | Some last => negb (bool_decide (SCAN_INTERVAL < utcnow_check env - last))
  end.

Definition update (env : Env) : M unit :=
  self ← get_self;
  if throttled env self then mret ()
  else
    _ ← update_body env;
    set_throttle_last (utcnow_done env).
End Data.

(** ** [MTASubwaySensor.update] *)

(** [s.endswith(c)] for a one-character [c]. *)
Fixpoint ends_with (c : ascii) (s : string) : bool :=
  match s with
  | EmptyString => false
  | String c' EmptyString => bool_decide (c' = c)
  | String _ rest => ends_with c rest
  end.

Definition with_state (t : Z) (arrivals : list Arrival) (s : MTASubwaySensor) : MTASubwaySensor :=
  {| _name := _name s; _station_id := _station_id s; _state := Some t;
     _arrivals := Some arrivals; _station_name := _station_name s;
     _station_direction_label := _station_direction_label s |}.

Definition with_direction_label (label : option string) (s : MTASubwaySensor) : MTASubwaySensor :=
  {| _name := _name s; _station_id := _station_id s; _state := _state s;
     _arrivals := _arrivals s; _station_name := _station_name s;
     _station_direction_label := label |}.

Definition with_name (name : string) (s : MTASubwaySensor) : MTASubwaySensor :=
  {| _name := Some name; _station_id := _station_id s; _state := _state s;
     _arrivals := _arrivals s; _station_name := _station_name s;
     _station_direction_label := _station_direction_label s |}.

Definition with_station_name (name : option string) (s : MTASubwaySensor) : MTASubwaySensor :=
  {| _name := _name s; _station_id := _station_id s; _state := _state s;
     _arrivals := _arrivals s; _station_name := name;
     _station_direction_label := _station_direction_label s |}.

(** Lines 135-144 once the state and the arrivals are set: the fields
    assigned before an exception keep their new values. *)
Definition label_sensor (stations : result StationDirectory) (s : MTASubwaySensor)
    : MTASubwaySensor * option exn :=
  let base := drop_last (_station_id s) in
  let side :=
    if ends_with "N"%char (_station_id s) then Some (north_direction_label, " Uptown")
    else if ends_with "S"%char (_station_id s) then Some (south_direction_label, " Downtown")
    else None in
  match side with
  | None => (s, Some (BadStationId (_station_id s)))
  | Some (label_of, suffix) =>
      match stations with
      | Raise e => (s, Some e)
      | Ok directory =>
          match directory !! Some base with
          | None => (s, Some (KeyError base))
          | Some station =>
              let s := with_direction_label (label_of station) s in
              match stop_name station with
              | None => (s, Some TypeError)
              | Some name =>
                  (with_station_name (Some name)
                     (with_name (String.append "MTA: " (String.append name suffix)) s),
                   None)
              end
          end
      end
  end.

(** The [try] block of lines 129-146. *)
Definition fill_sensor (stations : result StationDirectory) (station_data : list Arrival)
    (s : MTASubwaySensor) : MTASubwaySensor * option exn :=
  match station_data with
  | [] => (s, Some IndexError)
  | first :: _ => label_sensor stations (with_state (time first) station_data s)
  end.

Section Sensor.
Variable csv_reader : list byte → RowStream.
Variable ParseFromString : list byte → option FeedMessage.

(** [self._data.data["arrivals"][self._station_id]] (line 128): the
    mapping is the [defaultdict] the refresh published, so the lookup of
    a missing stop id writes into the published snapshot. *)
Definition read_station_data (station_id : string) : M (list Arrival) :=
  self ← get_self;
  match data self with
  | None => lift (Raise TypeError)
  | Some snapshot =>
      match snapshot !! "arrivals" with
      | Some (Arrivals arrivals) =>
          let '(station_data, arrivals') := defaultdict_getitem station_id arrivals in
          _ ← set_data (<["arrivals" := Arrivals arrivals']> snapshot);
          mret station_data
      | Some (Stations _) => lift (Raise TypeError)
      | None => lift (Raise (KeyError "arrivals"))
      end
  end.

(** [self._data.data["stations"]] *)
Definition read_stations_of (self : MTASubwayData) : result StationDirectory :=
  match data self with
  | None => Raise TypeError
  | Some snapshot =>
      match snapshot !! "stations" with
      | Some (Stations d) => Ok d
      | Some (Arrivals _) => Raise TypeError
      | None => Raise (KeyError "stations")
      end
  end.

Definition sensor_update (s : MTASubwaySensor) (env : Env) : M MTASubwaySensor :=
  _ ← update csv_reader ParseFromString env;
  station_data ← read_station_data (_station_id s);
  self ← get_self;
  match fill_sensor (read_stations_of self) station_data s with
  | (s', None) => mret s'
  | (s', Some e) => _ ← emit (LogSensorError e); mret s'
  end.
End Sensor.

(** ** The properties of [MTASubwaySensor] (lines 69-122) *)

Definition name (s : MTASubwaySensor) : option string := _name s.
Definition state (s : MTASubwaySensor) : option Z := _state s.
Definition icon : string := "mdi:subway".
Definition device_class : string := "timestamp".

(** ["mta_subway_" + self._station_id] *)
Definition unique_id (s : MTASubwaySensor) : string :=
  String.append "mta_subway_" (_station_id s).

(** The values of the dictionary [device_state_attributes] returns. *)
Inductive Attribute :=
| AttrArrivals (l : option (list Arrival))
| AttrText (t : option string).

Definition device_state_attributes (s : MTASubwaySensor) : gmap string Attribute :=
  <["station_direction_label" := AttrText (_station_direction_label s)]>
    (<["station_name" := AttrText (_station_name s)]>
       {["arrivals" := AttrArrivals (_arrivals s)]}).

Section Picture.
(** [str.lower] *)
Variable lower : string → string.

(** [entity_picture]: the first character of the lowered line of the first
    arrival, in the path of its picture; [None] when anything raises. *)
Definition entity_picture (s : MTASubwaySensor) : option string :=
  match _arrivals s with
  | Some (first :: _) =>
      match lower (line first) with
      | String c _ =>
          Some (String.append "/community_plugin/lovelace-mta-subway-realtime/public/"
                  (String c ".svg"))
      | EmptyString => None
      end
  | Some [] => None
  | None => None
  end.
End Picture.

(** [unit_of_measurement]: the lookup is the one of line 128, on the
    published [defaultdict]; whatever raises is caught and gives [None].
    The number is an [int], printed in decimal. *)
Definition unit_of_measurement (s : MTASubwaySensor) : M (option string) :=
  λ self,
    match read_station_data (_station_id s) self with
    | (Ok (first :: _), self') =>
        (Ok (Some (String.append (pretty (time_until first)) " min")), self')
    | (Ok [], self') => (Ok None, self')
    | (Raise _, self') => (Ok None, self')
    end.

(** ** [setup_platform] *)

Section Setup.
Variable csv_reader : list byte → RowStream.
Variable ParseFromString : list byte → option FeedMessage.

(** [setup_platform], up to its call of [add_devices]: the sensors it
    hands over, one for each configured station, and the data object they
    share.  An exception of the first [update] leaves the function before
    any sensor is made. *)
Definition setup_platform (key : string) (stations : list string) (env : Env)
    : result (list MTASubwaySensor) * MTASubwayData :=
  match update csv_reader ParseFromString env (MTASubwayData_init key stations) with
  | (Ok _, data') => (Ok (MTASubwaySensor_init <$> stations), data')
  | (Raise e, data') => (Raise e, data')
  end.
End Setup.

(** * Closed forms and vocabulary of the statements *)

(** The object after the records [evs] were appended to its journal. *)
Definition add_events (evs : list Event) (self : MTASubwayData) : MTASubwayData :=
  {| data := data self; api_key := api_key self;
     watched_stations := watched_stations self;
     throttle_last := throttle_last self;
     journal := journal self ++ evs |}.

Section ClosedForms.
Variable csv_reader : list byte → RowStream.
Variable ParseFromString : list byte → option FeedMessage.

(** What [__get_stations] returns, as a function of the reply. *)
Definition load_stations (env : Env) : result StationDirectory :=
  match stations_reply env with
  | Ok r => read_stations (csv_reader (content r))
  | Raise e => Raise e
  end.

(** The feed a response contributes, if any. *)
Definition decodes (r : Response) : option FeedMessage :=
  if bool_decide (status_code r ≠ 200) then None else ParseFromString (content r).

Definition decoded (responses : list Response) : list FeedMessage :=
  omap decodes responses.

(** The record logged for a response that contributes no feed. *)
Definition failure_record (r : Response) : list Event :=
  if bool_decide (status_code r ≠ 200) then [LogNon200 (url r)]
  else match ParseFromString (content r) with
       | Some _ => []
       | None => [LogParseFailure (url r)]
       end.

Definition failure_log (responses : list Response) : list Event :=
  responses ≫= failure_record.

(** The arrivals a refresh publishes for a directory and a list of feeds. *)
Definition published_arrivals (env : Env) (self : MTASubwayData)
    (stations : StationDirectory) : ArrivalsMap :=
  sort_by_time <$>
    collect_arrivals (watched_stations self) stations (time_time env)
      (decoded (pool_responses env)).

Definition published_snapshot (env : Env) (self : MTASubwayData)
    (stations : StationDirectory) : Snapshot :=
  <["arrivals" := Arrivals (published_arrivals env self stations)]>
    {["stations" := Stations stations]}.

(** The object after the body of [update] ran to its end. *)
Definition after_body (env : Env) (self : MTASubwayData) (stations : StationDirectory)
    : MTASubwayData :=
  {| data := Some (published_snapshot env self stations);
     api_key := api_key self;
     watched_stations := watched_stations self;
     throttle_last := throttle_last self;
     journal := journal self
                ++ [GetStations; PoolGet FEED_IDS] ++ failure_log (pool_responses env) |}.

(** The object after a call of [update] that was not throttled and
    whose body ran to its end. *)
Definition completed (env : Env) (self : MTASubwayData) (stations : StationDirectory)
    : MTASubwayData :=
  {| data := Some (published_snapshot env self stations);
     api_key := api_key self;
     watched_stations := watched_stations self;
     throttle_last := Some (utcnow_done env);
     journal := journal self
                ++ [GetStations; PoolGet FEED_IDS] ++ failure_log (pool_responses env) |}.

End ClosedForms.

Section Appends.
Variable watched : list string.
Variable stations : StationDirectory.
Variable current_time : Z.

(** The pairs of a stop id and an arrival the loop appends, in the order
    in which it appends them. *)
Definition emitted_by_update (header_ts : Z) (route : string) (stu : StopTimeUpdate)
    : list (string * Arrival) :=
  if retained watched stations (stop_id stu)
  then [(stop_id stu, make_arrival current_time header_ts route stu)]
  else [].

Definition emitted_by_entity (header_ts : Z) (ent : FeedEntity) : list (string * Arrival) :=
  match trip_update ent with
  | Some tu => stop_time_update tu ≫= emitted_by_update header_ts (route_id tu)
  | None => []
  end.

Definition emitted_by_feed (feed : FeedMessage) : list (string * Arrival) :=
  entity feed ≫= emitted_by_entity (header_timestamp feed).

Definition emitted (feeds : list FeedMessage) : list (string * Arrival) :=
  feeds ≫= emitted_by_feed.

(** The appended arrivals of one stop id, in the order of the appends. *)
Definition entries_for (k : string) (ems : list (string * Arrival)) : list Arrival :=
  (filter (λ ka, ka.1 = k) ems).*2.

Definition group (ems : list (string * Arrival)) (m : ArrivalsMap) : ArrivalsMap :=
  foldl (λ m ka, append_arrival ka.1 ka.2 m) m ems.

End Appends.

Definition by_time (a b : Arrival) : Prop := time a ≤ time b.

Section Calls.
Variable csv_reader : list byte → RowStream.
Variable ParseFromString : list byte → option FeedMessage.
Local Abbreviation update := (update csv_reader ParseFromString).

(** The object after a run of calls, whatever each returned. *)
Definition after_calls (envs : list Env) (self : MTASubwayData) : MTASubwayData :=
  foldl (λ s env, (update env s).2) self envs.

End Calls.

(** The columns [__get_stations] reads, in the order it reads them. *)
Definition required_columns : list string :=
  ["Stop Name"; "South Direction Label"; "North Direction Label"; "Complex ID";
   "GTFS Stop ID"].

(** Whether the reader yields a row that is not blank before it ends or
    fails. *)
Fixpoint has_data_row (rows : RowStream) : bool :=
  match rows with
  | EndOfRows => false
  | RowError => false
  | Row [] rest => has_data_row rest
  | Row (_ :: _) _ => true
  end.

(** [row.get(c)]: the field of a row under a column, [None] when the row
    is too short or the column is missing. *)
Definition field (fieldnames fields : list string) (c : string) : option string :=
  default None (dict_of_row fieldnames fields !! c).

Definition station_of (fieldnames fields : list string) : Station :=
  {| stop_name := field fieldnames fields "Stop Name";
     south_direction_label := field fieldnames fields "South Direction Label";
     north_direction_label := field fieldnames fields "North Direction Label";
     complex_id := field fieldnames fields "Complex ID" |}.

Definition key_of (fieldnames fields : list string) : option string :=
  field fieldnames fields "GTFS Stop ID".

(** The rows of a reader that ends without an error. *)
Definition stream_of (rows : list (list string)) : RowStream := foldr Row EndOfRows rows.

(** The directory after the loop, when every column is there. *)
Definition add_row (fieldnames : list string) (acc : StationDirectory)
    (fields : list string) : StationDirectory :=
  match fields with
  | [] => acc
  | _ :: _ => <[key_of fieldnames fields := station_of fieldnames fields]> acc
  end.

(** The rows with a given stop id, blank rows apart. *)
Definition rows_of (fieldnames : list string) (id : option string)
    (rows : list (list string)) : list (list string) :=
  filter (λ fields, fields ≠ [] ∧ key_of fieldnames fields = id) rows.

(** Every stop-time update of a list of feeds. *)
Definition stop_time_updates_of (feeds : list FeedMessage) : list StopTimeUpdate :=
  feeds ≫= λ feed, entity feed ≫= λ ent,
    match trip_update ent with
    | Some tu => stop_time_update tu
    | None => []
    end.

(** ** Vocabulary of the further properties *)

(** What every object reached from [__init__] satisfies: nothing is
    published before a refresh completed; what is published has the
    stations and the arrivals, each list of which is sorted. *)
Definition well_formed (self : MTASubwayData) : Prop :=
  match data self with
  | None => throttle_last self = None
  | Some snapshot =>
      is_Some (throttle_last self)
      ∧ ∃ stations arrivals,
          snapshot = <["arrivals" := Arrivals arrivals]> {["stations" := Stations stations]}
          ∧ ∀ k l, arrivals !! k = Some l → StronglySorted by_time l
  end.

(** The calls the host makes on the objects. *)
Inductive Call :=
| CallUpdate (env : Env)
| CallSensorUpdate (s : MTASubwaySensor) (env : Env)
| CallUnitOfMeasurement (s : MTASubwaySensor).

Section Hosting.
Variable csv_reader : list byte → RowStream.
Variable ParseFromString : list byte → option FeedMessage.

(** The data object after a call, whatever the call returned. *)
Definition after_call (self : MTASubwayData) (c : Call) : MTASubwayData :=
  match c with
  | CallUpdate env => (update csv_reader ParseFromString env self).2
  | CallSensorUpdate s env => (sensor_update csv_reader ParseFromString s env self).2
  | CallUnitOfMeasurement s => (unit_of_measurement s self).2
  end.
End Hosting.

(** Whether the reader fails in the end. *)
Fixpoint ends_in_error (rows : RowStream) : bool :=
  match rows with
  | EndOfRows => false
  | RowError => true
  | Row _ rest => ends_in_error rest
  end.

(** The arrivals after the lookup of line 128 for a stop id. *)
Definition after_read (k : string) (arrivals : ArrivalsMap) : ArrivalsMap :=
  (defaultdict_getitem k arrivals).2.

Definition by_time_until (a b : Arrival) : Prop := time_until a ≤ time_until b.

(** The mantissa of [60.0]: [60 = 8444249301319680 * 2^-47]. *)
Definition sixty_mantissa : positive := 8444249301319680.

(** ** A concrete world, used to run the definitions *)

Module Demo.
(** A reader for bodies without quotes: lines end at a line feed and
    fields at a comma, as [splitlines] and [csv.reader] split them. *)
Fixpoint split_on (sep : byte) (bs : list byte) : list (list byte) :=
  match bs with
  | [] => [[]]
  | b :: rest =>
      if Byte.eqb b sep then [] :: split_on sep rest
      else match split_on sep rest with
           | seg :: segs => (b :: seg) :: segs
           | [] => [[b]]
           end
  end.

Definition splitlines (bs : list byte) : list (list byte) :=
  let segs := split_on x0a bs in
  match reverse segs with
  | [] :: front => reverse front
  | _ => segs
  end.

Definition fields_of (line : list byte) : list string :=
  match line with
  | [] => []
  | _ :: _ => string_of_list_byte <$> split_on x2c line
  end.

Definition csv_reader (body : list byte) : RowStream :=
  foldr Row EndOfRows (fields_of <$> splitlines body).

Definition body_of (lines : list string) : list byte :=
  lines ≫= (λ l, list_byte_of_string l ++ [x0a]).

Definition feed : FeedMessage :=
  {| header_timestamp := 1000;
     entity :=
       [ {| trip_update := None |};
         {| trip_update :=
              Some {| route_id := "1";
                      stop_time_update :=
                        [ {| stop_id := "101N"; arrival_time := 1090 |};
                          {| stop_id := "103N"; arrival_time := 1200 |};
                          {| stop_id := "101S"; arrival_time := 1300 |} ] |} |};
         {| trip_update :=
              Some {| route_id := "2";
                      stop_time_update :=
                        [ {| stop_id := "101N"; arrival_time := 1030 |};
                          {| stop_id := "999N"; arrival_time := 1100 |};
                          {| stop_id := "101N"; arrival_time := 1090 |} ] |} |};
         {| trip_update :=
              Some {| route_id := "3";
                      stop_time_update :=
                        [ {| stop_id := "101N"; arrival_time := 930 |} ] |} |} ] |}.

(** A train reported for a time far beyond any timetable. *)
Definition far_feed : FeedMessage :=
  {| header_timestamp := 1000;
     entity :=
       [ {| trip_update :=
              Some {| route_id := "1";
                      stop_time_update :=
                        [ {| stop_id := "101N";
                             arrival_time := 9007200954741021 |} ] |} |} ] |}.

(** A stand-in for the wire format, enough to run the definitions: a
    body of one byte names a feed, and no other body decodes. *)
Definition ParseFromString (body : list byte) : option FeedMessage :=
  match body with
  | [x01%byte] => Some feed
  | [x02%byte] => Some far_feed
  | _ => None
  end.

Definition good : Response :=
  {| url := "feed_id=1"; status_code := 200; content := [x01%byte] |}.
Definition unavailable : Response :=
  {| url := "feed_id=26"; status_code := 503; content := [x01%byte] |}.
Definition garbled : Response :=
  {| url := "feed_id=16"; status_code := 200; content := [xff%byte; x00%byte] |}.
Definition far : Response :=
  {| url := "feed_id=21"; status_code := 200; content := [x02%byte] |}.

Definition table : Response :=
  {| url := "Stations.csv"; status_code := 200;
     content :=
       body_of
         [ "GTFS Stop ID,Complex ID,Stop Name,North Direction Label,South Direction Label";
           "101,293,Van Cortlandt Park,Uptown,Downtown";
           "";
           "103,294,238 St,Uptown,Downtown";
           "101,293,Van Cortlandt Park - 242 St,Manhattan,";
           "104" ] |}.

(** A reply of a server in trouble. *)
Definition outage : Response :=
  {| url := "Stations.csv"; status_code := 503;
     content := body_of ["Service Unavailable"] |}.

(** A table without the column of the stop names. *)
Definition truncated : Response :=
  {| url := "Stations.csv"; status_code := 200;
     content :=
       body_of
         [ "GTFS Stop ID,Complex ID,North Direction Label,South Direction Label";
           "101,293,Uptown,Downtown" ] |}.

Definition env : Env :=
  {| utcnow_check := 1000 * 1000000;
     stations_reply := Ok table;
     pool_responses := [unavailable; good; garbled];
     time_time := 1000;
     utcnow_done := 1001 * 1000000 |}.

(** The same world a little later. *)
Definition env_soon : Env :=
  {| utcnow_check := 1019 * 1000000;
     stations_reply := Ok table;
     pool_responses := [good];
     time_time := 1019;
     utcnow_done := 1020 * 1000000 |}.

Definition env_far : Env :=
  {| utcnow_check := 1700000000 * 1000000;
     stations_reply := Ok table;
     pool_responses := [far];
     time_time := 1700000000;
     utcnow_done := 1700000001 * 1000000 |}.

Definition env_outage : Env :=
  {| utcnow_check := 2000 * 1000000;
     stations_reply := Ok outage;
     pool_responses := [good];
     time_time := 2000;
     utcnow_done := 2001 * 1000000 |}.

Definition env_truncated : Env :=
  {| utcnow_check := 2000 * 1000000;
     stations_reply := Ok truncated;
     pool_responses := [good];
     time_time := 2000;
     utcnow_done := 2001 * 1000000 |}.

Definition env_offline : Env :=
  {| utcnow_check := 2000 * 1000000;
     stations_reply := Raise RequestException;
     pool_responses := [good];
     time_time := 2000;
     utcnow_done := 2001 * 1000000 |}.

Definition fresh : MTASubwayData := MTASubwayData_init "key" ["101N"; "999N"; "103S"].

(** The directory the table above loads as. *)
Definition directory : StationDirectory :=
  <[Some "104" := {| stop_name := None; south_direction_label := None;
                     north_direction_label := None; complex_id := None |}]>
  (<[Some "103" := {| stop_name := Some "238 St";
                      south_direction_label := Some "Downtown";
                      north_direction_label := Some "Uptown";
                      complex_id := Some "294" |}]>
   {[Some "101" := {| stop_name := Some "Van Cortlandt Park - 242 St";
                      south_direction_label := Some "";
                      north_direction_label := Some "Manhattan";
                      complex_id := Some "293" |}]}).

(** The arrivals of the first refresh under ["101N"], as the loop
    appends them and as they are published. *)
Definition appended : list Arrival :=
  [ {| time := 1090; line := "1"; last_updated := 1000; time_until := 2 |};
    {| time := 1030; line := "2"; last_updated := 1000; time_until := 1 |};
    {| time := 1090; line := "2"; last_updated := 1000; time_until := 2 |};
    {| time := 930; line := "3"; last_updated := 1000; time_until := -1 |} ].

Definition entries : list Arrival :=
  [ {| time := 930; line := "3"; last_updated := 1000; time_until := -1 |};
    {| time := 1030; line := "2"; last_updated := 1000; time_until := 1 |};
    {| time := 1090; line := "1"; last_updated := 1000; time_until := 2 |};
    {| time := 1090; line := "2"; last_updated := 1000; time_until := 2 |} ].

Definition arrivals : ArrivalsMap := {["101N" := entries]}.

Definition snapshot : Snapshot :=
  <["arrivals" := Arrivals arrivals]> {["stations" := Stations directory]}.

(** The object after the first refresh. *)
Definition refreshed : MTASubwayData :=
  {| data := Some snapshot;
     api_key := "key";
     watched_stations := ["101N"; "999N"; "103S"];
     throttle_last := Some (1001 * 1000000);
     journal := [GetStations; PoolGet FEED_IDS;
                 LogNon200 "feed_id=26"; LogParseFailure "feed_id=16"] |}.

(** The rows of the table after its header. *)
Definition header : list string :=
  ["GTFS Stop ID"; "Complex ID"; "Stop Name"; "North Direction Label";
   "South Direction Label"].

Definition rows : list (list string) :=
  [ ["101"; "293"; "Van Cortlandt Park"; "Uptown"; "Downtown"];
    [];
    ["103"; "294"; "238 St"; "Uptown"; "Downtown"];
    ["101"; "293"; "Van Cortlandt Park - 242 St"; "Manhattan"; ""];
    ["104"] ].
(** [str.lower] on the letters A to Z. *)
Definition lower_char (c : ascii) : ascii :=
  let n := nat_of_ascii c in
  if (65 <=? n)%nat && (n <=? 90)%nat then ascii_of_nat (n + 32) else c.

Fixpoint lower (s : string) : string :=
  match s with
  | EmptyString => EmptyString
  | String c rest => String (lower_char c) (lower rest)
  end.

(** The sensor of ["101N"] after its first update. *)
Definition sensor : MTASubwaySensor :=
  {| _name := Some "MTA: Van Cortlandt Park - 242 St Uptown";
     _station_id := "101N";
     _state := Some 930;
     _arrivals := Some entries;
     _station_name := Some "Van Cortlandt Park - 242 St";
     _station_direction_label := Some "Manhattan" |}.
(** The first world with the responses of the pool in another order. *)
Definition env_reordered : Env :=
  {| utcnow_check := 1000 * 1000000;
     stations_reply := Ok table;
     pool_responses := [good; garbled; unavailable];
     time_time := 1000;
     utcnow_done := 1001 * 1000000 |}.

(** A new object with the same stations in another order, one twice. *)
Definition fresh_shuffled : MTASubwayData :=
  MTASubwayData_init "key" ["103S"; "101N"; "101N"; "999N"].

(** A reader that fails after the first row of the table. *)
Definition failing_reader (body : list byte) : RowStream :=
  Row header (Row ["101"; "293"; "Van Cortlandt Park"; "Uptown"; "Downtown"] RowError).

(** A feed with a stop id that ends in neither N nor S, and one of a
    station whose row in the table has no stop name; a configuration that
    watches both. *)
Definition odd_feed : FeedMessage :=
  {| header_timestamp := 1000;
     entity :=
       [ {| trip_update :=
              Some {| route_id := "1";
                      stop_time_update :=
                        [ {| stop_id := "101X"; arrival_time := 1090 |};
                          {| stop_id := "104N"; arrival_time := 1150 |} ] |} |} ] |}.

Definition parse_odd (body : list byte) : option FeedMessage :=
  match body with
  | [x01%byte] => Some odd_feed
  | _ => None
  end.

Definition fresh_odd : MTASubwayData := MTASubwayData_init "key" ["101X"; "104N"].

Definition arrivals_odd : ArrivalsMap :=
  <["104N" := [ {| time := 1150; line := "1"; last_updated := 1000; time_until := 3 |} ]]>
    {["101X" := [ {| time := 1090; line := "1"; last_updated := 1000; time_until := 2 |} ]]}.
End Demo.

(** * Lemmas *)

(** ** Floats: the ceiling of a quotient by 60 *)

Lemma Zceil_div_spec a b :
  0 < b → b * (Zceil_div a b - 1) < a ≤ b * Zceil_div a b.
Proof.
  intros Hb. unfold Zceil_div.
  pose proof (Z.div_mod (- a) b ltac:(lia)).
  pose proof (Z.mod_pos_bound (- a) b Hb). lia.
Qed.

Lemma digits2_pos_size p : digits2_pos p = Pos.size p.
Proof. induction p; simpl; congruence. Qed.

Lemma digits2_pos_bounds p :
  2 ^ (Z.pos (digits2_pos p) - 1) ≤ Z.pos p < 2 ^ Z.pos (digits2_pos p).
Proof.
  rewrite digits2_pos_size. split.
  - pose proof (Pos.size_le p) as Hle.
    apply Pos2Z.pos_le_pos in Hle. rewrite Pos2Z.inj_pow in Hle.
    replace (Z.pos (Pos.size p)) with (Z.succ (Z.pos (Pos.size p) - 1)) in Hle by lia.
    rewrite Z.pow_succ_r in Hle by lia. lia.
  - pose proof (Pos.size_gt p) as Hgt.
    apply Pos2Z.pos_lt_pos in Hgt. by rewrite Pos2Z.inj_pow in Hgt.
Qed.

Lemma Zdigits2_unique q d :
  2 ^ (d - 1) ≤ q < 2 ^ d → 0 < d → Zdigits2 q = d.
Proof.
  intros [Hlo Hhi] Hd.
  assert (0 < q) by (pose proof (Z.pow_pos_nonneg 2 (d - 1)); lia).
  destruct q as [|p|p]; try lia. simpl.
  pose proof (digits2_pos_bounds p) as [Hlo' Hhi'].
  destruct (Z.lt_trichotomy (Z.pos (digits2_pos p)) d) as [Hlt|[Heq|Hgt]]; [|done|].
  - pose proof (Z.pow_le_mono_r 2 (Z.pos (digits2_pos p)) (d - 1)). lia.
  - pose proof (Z.pow_le_mono_r 2 d (Z.pos (digits2_pos p) - 1)). lia.
Qed.

Lemma shr_1_pos m r s :
  0 < m →
  shr_1 {| shr_m := m; shr_r := r; shr_s := s |}
  = {| shr_m := m / 2; shr_r := Z.odd m; shr_s := r || s |}.
Proof.
  intros Hm. destruct m as [|p|p]; try lia.
  rewrite <- Z.div2_div. by destruct p.
Qed.

Lemma loc_of_shr_record_of_loc m l :
  loc_of_shr_record (shr_record_of_loc m l) = l.
Proof. by destruct l as [|[]]. Qed.

Lemma shr_m_of_loc m l : shr_m (shr_record_of_loc m l) = m.
Proof. by destruct l as [|[]]. Qed.

Lemma shr_fexp_same m e l :
  2 ^ 52 ≤ m < 2 ^ 53 → -1074 ≤ e →
  shr_fexp prec emax m e l = (shr_record_of_loc m l, e).
Proof.
  intros Hm He. unfold shr_fexp. rewrite (Zdigits2_unique m 53) by (done || lia).
  unfold fexp, emin, prec, emax.
  replace (Z.max (53 + e - 53) (3 - 1024 - 53) - e) with 0 by lia. done.
Qed.

Lemma shr_fexp_one m e l :
  2 ^ 53 ≤ m < 2 ^ 54 → -1075 ≤ e →
  shr_fexp prec emax m e l = (shr_1 (shr_record_of_loc m l), e + 1).
Proof.
  intros Hm He. unfold shr_fexp. rewrite (Zdigits2_unique m 54) by (done || lia).
  unfold fexp, emin, prec, emax.
  replace (Z.max (54 + e - 53) (3 - 1024 - 53) - e) with 1 by lia. done.
Qed.

(** The last two steps of [binary_round_aux] on a mantissa of 53 digits,
    or on [2^53]. *)
Lemma renormalize s m e :
  2 ^ 52 ≤ m ≤ 2 ^ 53 → -1074 ≤ e ≤ 900 →
  ∃ m' e',
    (let '(mrs, e'') := shr_fexp prec emax m e loc_Exact in
     match shr_m mrs with
     | 0 => S754_zero s
     | Z.pos m'' =>
         if e'' <=? emax - prec then S754_finite s m'' e'' else S754_infinity s
     | Z.neg _ => S754_nan
     end) = S754_finite s m' e'
    ∧ e ≤ e' ≤ e + 1
    ∧ Z.pos m' * 2 ^ (e' - e) = m.
Proof.
  intros Hm He. destruct (decide (m < 2 ^ 53)) as [Hlt|Hge].
  - rewrite shr_fexp_same by lia. simpl.
    destruct m as [|p|p]; try lia.
    exists p, e. rewrite Zle_imp_le_bool by (unfold emax, prec; lia).
    split; [done|]. split; [lia|]. rewrite Z.sub_diag. lia.
  - assert (m = 2 ^ 53) as -> by lia.
    rewrite shr_fexp_one by lia.
    exists (2 ^ 52)%positive, (e + 1). simpl.
    rewrite Zle_imp_le_bool by (unfold emax, prec; lia).
    split; [done|]. split; [lia|].
    replace (e + 1 - e) with 1 by lia. done.
Qed.

Lemma round_nearest_even_near m l :
  m ≤ round_nearest_even m l ≤ m + 1.
Proof. destruct l as [|[]]; simpl; try lia. destruct (Z.even m); lia. Qed.

Lemma binary_round_aux_near s q e l :
  2 ^ 52 ≤ q < 2 ^ 54 → -1074 ≤ e ≤ 800 →
  (l = loc_Exact → 2 ^ 53 ≤ q → Z.even q = true) →
  ∃ m' e',
    binary_round_aux prec emax s q e l = S754_finite s m' e'
    ∧ e ≤ e' ≤ e + 2
    ∧ q ≤ Z.pos m' * 2 ^ (e' - e) ≤ q + 1
    ∧ (l = loc_Exact → Z.pos m' * 2 ^ (e' - e) = q).
Proof.
  intros Hq He Heven. unfold binary_round_aux.
  destruct (decide (q < 2 ^ 53)) as [Hlt|Hge].
  - rewrite shr_fexp_same by lia.
    rewrite loc_of_shr_record_of_loc, shr_m_of_loc.
    pose proof (round_nearest_even_near q l) as Hnear.
    destruct (renormalize s (round_nearest_even q l) e) as (m' & e' & -> & He' & Hval);
      [lia|lia|].
    exists m', e'. split; [done|]. split; [lia|]. rewrite Hval.
    split; [done|]. by intros ->.
  - rewrite shr_fexp_one by lia.
    assert (Hrec : ∃ r0 s0, shr_record_of_loc q l = {| shr_m := q; shr_r := r0; shr_s := s0 |}
                            ∧ (l = loc_Exact ↔ r0 || s0 = false)).
    { destruct l as [|[]]; simpl; eexists _, _; (split; [done|]); simpl; split; done. }
    destruct Hrec as (r0 & s0 & -> & Hexact).
    rewrite shr_1_pos by lia. simpl shr_m.
    set (q' := round_nearest_even (q / 2) _).
    assert (Hq' : 2 * q' = q ∨ (l ≠ loc_Exact ∧ 2 * q' = q + 1)).
    { subst q'. pose proof (Z.div_mod q 2 ltac:(lia)) as Hdiv.
      rewrite Zodd_mod. destruct (Z.eqb_spec (q mod 2) 1) as [Hodd|Hodd].
      - destruct (r0 || s0) eqn:Hrs.
        + right. simpl. split; [|lia]. intros Hl. apply Hexact in Hl. done.
        + assert (Hl : l = loc_Exact) by by apply Hexact.
          specialize (Heven Hl ltac:(lia)). rewrite Zeven_mod in Heven.
          apply Z.eqb_eq in Heven. lia.
      - left. pose proof (Z.mod_pos_bound q 2 ltac:(lia)).
        destruct (r0 || s0); simpl; lia. }
    destruct (renormalize s q' (e + 1)) as (m' & e' & -> & He' & Hval); [lia|lia|].
    exists m', e'. split; [done|]. split; [lia|].
    replace (e' - e) with (Z.succ (e' - (e + 1))) by lia.
    rewrite Z.pow_succ_r by lia.
    split; [lia|]. intros Hl. destruct Hq' as [?|[? ?]]; [lia|done].
Qed.

Lemma float_of_int_60 : float_of_int 60 = S754_finite false sixty_mantissa (-47).
Proof. reflexivity. Qed.

Lemma sixty_mantissa_eq : Z.pos sixty_mantissa = 15 * 2 ^ 49.
Proof. reflexivity. Qed.

(** The quotient of a float of 53 digits by [60.0]: a float within one
    unit of [2^(ex - 6)] above the quotient, and the quotient itself when
    the division is exact. *)
Lemma float_div_60 s mx ex :
  2 ^ 52 ≤ Z.pos mx < 2 ^ 53 → -52 ≤ ex ≤ 0 →
  ∃ m' e',
    float_div (S754_finite s mx ex) (S754_finite false sixty_mantissa (-47))
    = S754_finite s m' e'
    ∧ ex - 6 ≤ e' ≤ ex - 4
    ∧ (Z.pos mx * 16) / 15 ≤ Z.pos m' * 2 ^ (e' - (ex - 6)) ≤ (Z.pos mx * 16) / 15 + 1
    ∧ ((Z.pos mx * 16) mod 15 = 0 →
       Z.pos m' * 2 ^ (e' - (ex - 6)) = (Z.pos mx * 16) / 15).
Proof.
  intros Hmx Hex. unfold float_div, SFdiv, SFdiv_core_binary.
  rewrite (Zdigits2_unique (Z.pos mx) 53) by (done || lia).
  replace (Zdigits2 (Z.pos sixty_mantissa)) with 53 by reflexivity.
  unfold fexp, emin, prec, emax.
  replace (Z.min (Z.max (53 + ex - (53 + -47) - 53) (3 - 1024 - 53)) (ex - -47))
    with (ex - 6) by lia.
  replace (ex - -47 - (ex - 6)) with 53 by lia.
  rewrite Z.shiftl_mul_pow2 by lia.
  pose proof (Z_div_mod (Z.pos mx * 2 ^ 53) (Z.pos sixty_mantissa) ltac:(lia)) as Hdiv.
  destruct (Z.div_eucl (Z.pos mx * 2 ^ 53) (Z.pos sixty_mantissa)) as [q r].
  destruct Hdiv as [Hdiv Hr]. rewrite sixty_mantissa_eq in Hdiv, Hr.
  assert (Hq : q = (Z.pos mx * 16) / 15 ∧ (r = 0 ↔ (Z.pos mx * 16) mod 15 = 0)).
  { assert (Hr49 : ∃ r', r = r' * 2 ^ 49) by (exists (Z.pos mx * 16 - 15 * q); lia).
    destruct Hr49 as [r' ->].
    assert (Z.pos mx * 16 = 15 * q + r') by lia.
    assert (0 ≤ r' < 15) by lia.
    rewrite (Z.div_unique (Z.pos mx * 16) 15 q r') by (lia || (left; lia)).
    rewrite (Z.mod_unique (Z.pos mx * 16) 15 q r') by (lia || (left; lia)).
    split; [done|lia]. }
  destruct Hq as [Hq Hexact]. rewrite <- Hq.
  assert (Hloc : new_location (Z.pos sixty_mantissa) r = loc_Exact ↔ r = 0).
  { unfold new_location. replace (Z.even (Z.pos sixty_mantissa)) with true by reflexivity.
    unfold new_location_even. destruct (Z.eqb_spec r 0); split; done. }
  rewrite xorb_false_r.
  change (binary_round_aux 53 1024) with (binary_round_aux prec emax).
  destruct (binary_round_aux_near s q (ex - 6) (new_location (Z.pos sixty_mantissa) r))
    as (m' & e' & -> & He' & Hnear & Hsame).
  - pose proof (Z.div_mod (Z.pos mx * 16) 15 ltac:(lia)).
    pose proof (Z.mod_pos_bound (Z.pos mx * 16) 15 ltac:(lia)). lia.
  - lia.
  - intros Hl%Hloc _. subst r. rewrite Zeven_mod. apply Z.eqb_eq.
    assert (Hq2 : q = (8 * Z.pos mx - 7 * q) * 2) by lia.
    rewrite Hq2. apply Z.mod_mul. lia.
  - exists m', e'. split; [done|]. split; [lia|]. split; [done|].
    intros Hmod. apply Hsame, Hloc, Hexact, Hmod.
Qed.

Lemma binary_round_aux_exact s m e :
  2 ^ 52 ≤ Z.pos m < 2 ^ 53 → -1074 ≤ e ≤ 900 →
  binary_round_aux prec emax s (Z.pos m) e loc_Exact = S754_finite s m e.
Proof.
  intros Hm He. unfold binary_round_aux.
  rewrite shr_fexp_same by lia. simpl.
  rewrite shr_fexp_same by lia. simpl.
  by rewrite Zle_imp_le_bool by (unfold emax, prec; lia).
Qed.

(** [float(x)] for [0 < |x| < 2^53]: the mantissa is [|x|] shifted to 53
    digits, and no digit is lost. *)
Lemma binary_round_small s p :
  Z.pos p < 2 ^ 53 →
  ∃ mz,
    binary_round prec emax s p 0 = S754_finite s mz (Z.pos (digits2_pos p) - 53)
    ∧ Z.pos mz = Z.pos p * 2 ^ (53 - Z.pos (digits2_pos p))
    ∧ 2 ^ 52 ≤ Z.pos mz < 2 ^ 53
    ∧ 1 ≤ Z.pos (digits2_pos p) ≤ 53.
Proof.
  intros Hp. pose proof (digits2_pos_bounds p) as [Hlo Hhi].
  assert (Hn1 : 1 ≤ Z.pos (digits2_pos p)) by lia.
  remember (Z.pos (digits2_pos p)) as n eqn:Hndef.
  assert (Hn : 1 ≤ n ≤ 53).
  { split; [lia|]. destruct (decide (n ≤ 53)) as [|Hbig]; [done|].
    pose proof (Z.pow_le_mono_r 2 53 (n - 1)). lia. }
  assert (Hshift : 2 ^ (n - 1) * 2 ^ (53 - n) = 2 ^ 52).
  { rewrite <- Z.pow_add_r by lia. f_equal. lia. }
  assert (Hshift' : 2 ^ n * 2 ^ (53 - n) = 2 ^ 53).
  { rewrite <- Z.pow_add_r by lia. f_equal. lia. }
  assert (Hpow : 0 < 2 ^ (53 - n)) by (apply Z.pow_pos_nonneg; lia).
  unfold binary_round. rewrite <- Hndef. clear Hndef.
  replace (fexp prec emax (n + 0)) with (n - 53)
    by (unfold fexp, emin, prec, emax; lia).
  unfold shl_align.
  destruct (n - 53 - 0) as [|d|d] eqn:Hd; [|lia|]; cbv beta iota zeta.
  - assert (n = 53) as -> by lia. exists p.
    rewrite binary_round_aux_exact by lia.
    split; [done|]. split; [|lia].
    rewrite Z.sub_diag. lia.
  - exists (Pos.iter xO p d).
    assert (Hval : Z.pos (Pos.iter xO p d) = Z.pos p * 2 ^ (53 - n)).
    { change (Pos.iter xO p d) with (shift_pos d p).
      rewrite shift_pos_correct.
      change (Z.pow_pos 2 d) with (2 ^ Z.pos d).
      replace (53 - n) with (Z.pos d) by lia. lia. }
    rewrite binary_round_aux_exact by nia.
    split; [done|]. split; [done|]. split; [nia|lia].
Qed.

Lemma Zceil_div_scale a b c :
  0 < b → 0 < c → Zceil_div (a * c) (b * c) = Zceil_div a b.
Proof.
  intros Hb Hc. unfold Zceil_div. rewrite <- Z.mul_opp_l.
  by rewrite Z.div_mul_cancel_r by lia.
Qed.

(** An integer [W] next to [a * P / 15] lies in the same interval between
    multiples of [4 * P] as [a] does between multiples of 60, once [P] is
    at least 16. *)
Lemma quotient_of_near a P W :
  0 < a → 16 ≤ P →
  (a * P) / 15 ≤ W ≤ (a * P) / 15 + 1 →
  ((a * P) mod 15 = 0 → W = (a * P) / 15) →
  W / (4 * P) = a / 60 ∧ (- W) / (4 * P) = (- a) / 60.
Proof.
  intros Ha HP Hnear Hexact.
  pose proof (Z.div_mod a 60 ltac:(lia)) as Hdiv.
  pose proof (Z.mod_pos_bound a 60 ltac:(lia)) as Hrem.
  pose proof (Z.div_mod (a * P) 15 ltac:(lia)) as Hdiv'.
  pose proof (Z.mod_pos_bound (a * P) 15 ltac:(lia)) as Hrem'.
  set (N := a / 60) in *. set (rho := a mod 60) in *.
  set (q := (a * P) / 15) in *. set (rho' := (a * P) mod 15) in *.
  assert (HaP : a * P = 60 * (N * P) + rho * P) by (rewrite Hdiv at 1; ring).
  destruct (decide (rho = 0)) as [Hzero|Hpos].
  - rewrite Hzero in *. assert (rho' = 0) by lia.
    assert (W = N * (4 * P)) as -> by (rewrite Hexact by done; lia).
    rewrite <- Z.mul_opp_l, !Z.div_mul by lia. split.
    + done.
    + apply (Z.div_unique _ _ _ 0); lia.
  - assert (P ≤ rho * P ≤ 59 * P) by nia.
    split.
    + rewrite <- (Z.div_unique W (4 * P) N (W - 4 * (N * P))); [done| |ring].
      left. lia.
    + rewrite <- (Z.div_unique (- W) (4 * P) (- N - 1) (4 * (N * P) + 4 * P - W));
        [|left; lia|ring].
      apply (Z.div_unique _ _ _ (60 - rho)); lia.
Qed.

(** [float(x) / 60], rounded up to an integer, is the exact ceiling of
    [x / 60] for every [x] with [0 < |x| < 2^53]. *)
Lemma ceil_of_quotient_small s p :
  Z.pos p < 2 ^ 53 →
  math_ceil (float_div (binary_round prec emax s p 0) (float_of_int 60))
  = Zceil_div (cond_Zopp s (Z.pos p)) 60.
Proof.
  intros Hp.
  destruct (binary_round_small s p Hp) as (mz & -> & Hmz & Hmz53 & Hn).
  set (n := Z.pos (digits2_pos p)) in *.
  rewrite float_of_int_60.
  destruct (float_div_60 s mz (n - 53)) as (m' & e' & -> & He' & Hnear & Hexact);
    [done|lia|].
  unfold math_ceil. rewrite (proj2 (Z.leb_gt 0 e')) by lia.
  set (c := 2 ^ (e' - (n - 53 - 6))) in *.
  set (P := 2 ^ (57 - n)).
  assert (Hc : 0 < c) by (apply Z.pow_pos_nonneg; lia).
  assert (HP : 16 ≤ P).
  { change 16 with (2 ^ 4). apply Z.pow_le_mono_r; lia. }
  assert (H4P : 2 ^ (- e') * c = 4 * P).
  { unfold c, P. rewrite <- Z.pow_add_r by lia. change 4 with (2 ^ 2).
    rewrite <- Z.pow_add_r by lia. f_equal. lia. }
  assert (HaP : Z.pos mz * 16 = Z.pos p * P).
  { rewrite Hmz. unfold P. change 16 with (2 ^ 4).
    rewrite <- Z.mul_assoc, <- Z.pow_add_r by lia. do 2 f_equal. lia. }
  rewrite HaP in Hnear, Hexact.
  destruct (quotient_of_near (Z.pos p) P (Z.pos m' * c)) as [Hfloor Hceil];
    [lia|done|done|done|].
  rewrite <- (Zceil_div_scale _ (2 ^ (- e')) c) by (done || apply Z.pow_pos_nonneg; lia).
  rewrite H4P. unfold Zceil_div. destruct s; simpl cond_Zopp.
  - rewrite Z.mul_opp_l, !Z.opp_involutive. by rewrite Hfloor.
  - rewrite <- Z.mul_opp_l, Z.mul_opp_l. by rewrite Hceil.
Qed.

(** [math.ceil(float(arrival - current_time) / 60)] is exact up to [2^53]. *)
Lemma time_until_of_exact arrival current_time :
  Z.abs (arrival - current_time) ≤ 2 ^ 53 →
  time_until_of arrival current_time = Zceil_div (arrival - current_time) 60.
Proof.
  unfold time_until_of. generalize (arrival - current_time) as x. intros x Hx.
  destruct (decide (Z.abs x = 2 ^ 53)) as [Htop|Hlow].
  - assert (x = 2 ^ 53 ∨ x = - 2 ^ 53) as [-> | ->] by lia; vm_compute; reflexivity.
  - destruct x as [|p|p].
    + reflexivity.
    + apply (ceil_of_quotient_small false p). lia.
    + apply (ceil_of_quotient_small true p). lia.
Qed.

(** ** What one call does, in closed form *)

Lemma add_events_nil self : add_events [] self = self.
Proof. destruct self; unfold add_events; simpl. by rewrite app_nil_r. Qed.

Lemma add_events_app evs1 evs2 self :
  add_events evs2 (add_events evs1 self) = add_events (evs1 ++ evs2) self.
Proof. unfold add_events; simpl. by rewrite app_assoc. Qed.

Lemma emit_run ev self : emit ev self = (Ok (), add_events [ev] self).
Proof. reflexivity. Qed.

Section Runs.
Variable csv_reader : list byte → RowStream.
Variable ParseFromString : list byte → option FeedMessage.

Lemma get_stations_run env self :
  get_stations csv_reader env self
  = (load_stations csv_reader env, add_events [GetStations] self).
Proof.
  unfold get_stations, load_stations, mbind, M_bind, lift. rewrite emit_run.
  by destruct (stations_reply env).
Qed.

Lemma decode_responses_run responses acc self :
  decode_responses ParseFromString responses acc self
  = (Ok (acc ++ decoded ParseFromString responses), add_events (failure_log ParseFromString responses) self).
Proof.
  revert acc self. induction responses as [|r rs IH]; intros acc self.
  - simpl. by rewrite app_nil_r, add_events_nil.
  - unfold failure_log. simpl. unfold decodes, failure_record.
    destruct (bool_decide (status_code r ≠ 200)) eqn:Hstatus.
    + unfold mbind, M_bind. rewrite emit_run, IH.
      by rewrite add_events_app.
    + destruct (ParseFromString (content r)) as [feed|].
      * rewrite IH. simpl. by rewrite <- app_assoc.
      * unfold mbind, M_bind. rewrite emit_run, IH.
        by rewrite add_events_app.
Qed.

Lemma get_realtime_data_run env self :
  get_realtime_data ParseFromString env self
  = (Ok (decoded ParseFromString (pool_responses env)),
     add_events (PoolGet FEED_IDS :: failure_log ParseFromString (pool_responses env)) self).
Proof.
  unfold get_realtime_data, mbind, M_bind.
  rewrite emit_run, decode_responses_run. simpl. by rewrite add_events_app.
Qed.

Lemma update_body_run env self :
  update_body csv_reader ParseFromString env self
  = match load_stations csv_reader env with
    | Ok stations => (Ok (), after_body ParseFromString env self stations)
    | Raise e => (Raise e, add_events [GetStations] self)
    end.
Proof.
  unfold update_body, mbind, M_bind. rewrite get_stations_run.
  destruct (load_stations csv_reader env) as [stations|e]; [|done].
  rewrite get_realtime_data_run. unfold get_self, set_data, after_body; simpl.
  by rewrite <- app_assoc.
Qed.

Lemma update_run env self :
  update csv_reader ParseFromString env self
  = if throttled env self then (Ok (), self)
    else match load_stations csv_reader env with
         | Ok stations => (Ok (), completed ParseFromString env self stations)
         | Raise e => (Raise e, add_events [GetStations] self)
         end.
Proof.
  unfold update. unfold mbind at 1, M_bind at 1. unfold get_self at 1.
  destruct (throttled env self); [done|].
  unfold mbind, M_bind. rewrite update_body_run.
  by destruct (load_stations csv_reader env).
Qed.

End Runs.

(** ** The aggregation in closed form *)

Section Emissions.
Variable watched : list string.
Variable stations : StationDirectory.
Variable current_time : Z.

Lemma group_app ems1 ems2 m : group (ems1 ++ ems2) m = group ems2 (group ems1 m).
Proof. apply foldl_app. Qed.

Lemma visit_updates_group header_ts route stus m :
  foldl (visit_stop_time_update watched stations current_time header_ts route) m stus
  = group (stus ≫= emitted_by_update watched stations current_time header_ts route) m.
Proof.
  revert m. induction stus as [|stu stus IH]; intros m; [done|].
  simpl. rewrite group_app, IH. f_equal.
  unfold visit_stop_time_update, emitted_by_update.
  by destruct (retained watched stations (stop_id stu)).
Qed.

Lemma visit_entity_group header_ts ent m :
  visit_entity watched stations current_time header_ts m ent
  = group (emitted_by_entity watched stations current_time header_ts ent) m.
Proof.
  unfold visit_entity, emitted_by_entity.
  destruct (trip_update ent); [apply visit_updates_group | done].
Qed.

Lemma visit_feed_group feed m :
  visit_feed watched stations current_time m feed = group (emitted_by_feed watched stations current_time feed) m.
Proof.
  unfold visit_feed, emitted_by_feed.
  generalize (header_timestamp feed) as ts. intros ts. revert m.
  induction (entity feed) as [|ent ents IH]; intros m; [done|].
  simpl. by rewrite group_app, IH, visit_entity_group.
Qed.

Lemma collect_arrivals_group feeds :
  collect_arrivals watched stations current_time feeds = group (emitted watched stations current_time feeds) ∅.
Proof.
  unfold collect_arrivals, emitted. generalize (∅ : ArrivalsMap) as m.
  induction feeds as [|feed feeds IH]; intros m; [done|].
  simpl. by rewrite group_app, IH, visit_feed_group.
Qed.

Lemma entries_for_cons k k' a ems :
  entries_for k ((k', a) :: ems)
  = if decide (k' = k) then a :: entries_for k ems else entries_for k ems.
Proof.
  unfold entries_for. rewrite filter_cons. simpl.
  by destruct (decide (k' = k)).
Qed.

Lemma group_lookup ems m k :
  group ems m !! k
  = match entries_for k ems with
    | [] => m !! k
    | l => Some (default [] (m !! k) ++ l)
    end.
Proof.
  revert m. induction ems as [|[k' a] ems IH]; intros m; [done|].
  change (group ((k', a) :: ems) m) with (group ems (append_arrival k' a m)).
  rewrite IH, entries_for_cons. unfold append_arrival.
  destruct (decide (k' = k)) as [->|Hne].
  - rewrite lookup_insert_eq. simpl.
    destruct (entries_for k ems); [done|]. by rewrite <- app_assoc.
  - by rewrite lookup_insert_ne.
Qed.

Lemma collect_arrivals_lookup feeds k :
  collect_arrivals watched stations current_time feeds !! k
  = match entries_for k (emitted watched stations current_time feeds) with
    | [] => None
    | l => Some l
    end.
Proof.
  rewrite collect_arrivals_group, group_lookup, lookup_empty.
  by destruct (entries_for k (emitted watched stations current_time feeds)).
Qed.

(** Where an appended pair comes from. *)
Lemma elem_of_emitted k a feeds :
  (k, a) ∈ emitted watched stations current_time feeds ↔
  ∃ feed ent tu stu,
    feed ∈ feeds ∧ ent ∈ entity feed ∧ trip_update ent = Some tu
    ∧ stu ∈ stop_time_update tu
    ∧ retained watched stations (stop_id stu) = true
    ∧ k = stop_id stu
    ∧ a = make_arrival current_time (header_timestamp feed) (route_id tu) stu.
Proof.
  unfold emitted, emitted_by_feed, emitted_by_entity, emitted_by_update. split.
  - intros (feed & Hin & Hfeed)%list_elem_of_bind.
    apply list_elem_of_bind in Hin as (ent & Hin & Hent).
    destruct (trip_update ent) as [tu|] eqn:Htu; [|by apply elem_of_nil in Hin].
    apply list_elem_of_bind in Hin as (stu & Hin & Hstu).
    destruct (retained watched stations (stop_id stu)) eqn:Hret;
      [|by apply elem_of_nil in Hin].
    apply list_elem_of_singleton in Hin. injection Hin as -> ->.
    by exists feed, ent, tu, stu.
  - intros (feed & ent & tu & stu & Hfeed & Hent & Htu & Hstu & Hret & -> & ->).
    apply list_elem_of_bind. exists feed. split; [|done].
    apply list_elem_of_bind. exists ent. split; [|done].
    rewrite Htu. apply list_elem_of_bind. exists stu. split; [|done].
    rewrite Hret. apply list_elem_of_singleton. done.
Qed.

Lemma elem_of_entries_for k a ems : a ∈ entries_for k ems ↔ (k, a) ∈ ems.
Proof.
  unfold entries_for. rewrite list_elem_of_fmap. split.
  - intros ([k' a'] & -> & [Hk Hin]%list_elem_of_filter). simpl in *. by subst.
  - intros Hin. exists (k, a). split; [done|]. by apply list_elem_of_filter.
Qed.

End Emissions.

(** ** The sort *)

Lemma insert_by_time_sorted a l :
  StronglySorted by_time l → StronglySorted by_time (insert_by_time a l).
Proof.
  induction 1 as [|b l Hl IH Hb]; simpl.
  - repeat constructor.
  - destruct (Z.ltb_spec (time b) (time a)) as [Hlt|Hge].
    + constructor; [done|].
      assert (Hall : ∀ c, c ∈ insert_by_time a l → by_time b c).
      { clear IH Hl. rewrite Forall_forall in Hb. induction l as [|c l IHl]; simpl.
        - intros c Hc. apply list_elem_of_singleton in Hc as ->. unfold by_time. lia.
        - intros d. destruct (time c <? time a).
          + intros [->|Hd]%elem_of_cons.
            * apply Hb. by left.
            * apply IHl; [|done]. intros x Hx. apply Hb. by right.
          + intros [->|Hd]%elem_of_cons; [unfold by_time; lia|by apply Hb]. }
      by apply Forall_forall.
    + constructor; [by constructor|].
      constructor; [done|].
      eapply Forall_impl; [exact Hb|]. unfold by_time. intros c Hc. lia.
Qed.

Lemma sort_by_time_cons a l :
  sort_by_time (a :: l) = insert_by_time a (sort_by_time l).
Proof. reflexivity. Qed.

Lemma sort_by_time_sorted l : StronglySorted by_time (sort_by_time l).
Proof.
  induction l as [|a l IH]; [constructor|].
  rewrite sort_by_time_cons. by apply insert_by_time_sorted.
Qed.

Lemma insert_by_time_perm a l : insert_by_time a l ≡ₚ a :: l.
Proof.
  induction l as [|b l IH]; simpl; [done|].
  destruct (time b <? time a); [|done].
  rewrite IH. apply Permutation_swap.
Qed.

Lemma sort_by_time_perm l : sort_by_time l ≡ₚ l.
Proof.
  induction l as [|a l IH]; [done|].
  by rewrite sort_by_time_cons, insert_by_time_perm, IH.
Qed.

Lemma elem_of_sort_by_time a l : a ∈ sort_by_time l ↔ a ∈ l.
Proof. by rewrite sort_by_time_perm. Qed.

(** Stability: the arrivals of one time keep the order they had. *)
Lemma insert_by_time_stable t a l :
  filter (λ b, time b = t) (insert_by_time a l)
  = filter (λ b, time b = t) (a :: l).
Proof.
  induction l as [|b l IH]; simpl; [done|].
  destruct (Z.ltb_spec (time b) (time a)) as [Hlt|Hge]; [|done].
  rewrite !filter_cons in *.
  destruct (decide (time b = t)) as [Hb|Hb], (decide (time a = t)) as [Ha|Ha];
    try lia; by rewrite IH.
Qed.

Lemma sort_by_time_stable t l :
  filter (λ b, time b = t) (sort_by_time l) = filter (λ b, time b = t) l.
Proof.
  induction l as [|a l IH]; [done|].
  by rewrite sort_by_time_cons, insert_by_time_stable, !filter_cons, IH.
Qed.

Lemma sort_by_time_nil l : sort_by_time l = [] → l = [].
Proof.
  intros Hnil. apply Permutation_nil. rewrite <- Hnil. apply sort_by_time_perm.
Qed.

(** * The published snapshot *)

Lemma published_snapshot_stations pfs env self stations :
  published_snapshot pfs env self stations !! "stations" = Some (Stations stations).
Proof.
  unfold published_snapshot. rewrite lookup_insert_ne by done.
  apply lookup_singleton_eq.
Qed.

Lemma published_snapshot_arrivals pfs env self stations :
  published_snapshot pfs env self stations !! "arrivals"
  = Some (Arrivals (published_arrivals pfs env self stations)).
Proof. unfold published_snapshot. apply lookup_insert_eq. Qed.

Lemma published_snapshot_keys pfs env self stations k :
  is_Some (published_snapshot pfs env self stations !! k)
  ↔ k = "stations" ∨ k = "arrivals".
Proof.
  unfold published_snapshot. rewrite lookup_insert_is_Some, lookup_singleton_is_Some.
  split.
  - intros [-> | [_ ->]]; auto.
  - intros [-> | ->]; [right; by split | by left].
Qed.

Lemma published_arrivals_lookup pfs env self stations k :
  published_arrivals pfs env self stations !! k
  = match entries_for k (emitted (watched_stations self) stations (time_time env)
                           (decoded pfs (pool_responses env))) with
    | [] => None
    | l => Some (sort_by_time l)
    end.
Proof.
  unfold published_arrivals. rewrite lookup_fmap, collect_arrivals_lookup.
  by destruct (entries_for _ _).
Qed.

Section Refresh.
Variable csv_reader : list byte → RowStream.
Variable ParseFromString : list byte → option FeedMessage.
Local Abbreviation update := (update csv_reader ParseFromString).
Local Abbreviation decoded := (decoded ParseFromString).

(** A call of [update] that ran the body and returned. *)
Lemma update_completed_inv env self self' :
  throttled env self = false →
  update env self = (Ok (), self') →
  ∃ stations,
    load_stations csv_reader env = Ok stations
    ∧ self' = completed ParseFromString env self stations.
Proof.
  intros Hrun. rewrite update_run, Hrun.
  destruct (load_stations csv_reader env) as [stations|e]; [|done].
  intros Heq. injection Heq as <-. by exists stations.
Qed.

Lemma published_inv env self self' snapshot stations arrivals :
  throttled env self = false →
  update env self = (Ok (), self') →
  data self' = Some snapshot →
  snapshot !! "stations" = Some (Stations stations) →
  snapshot !! "arrivals" = Some (Arrivals arrivals) →
  load_stations csv_reader env = Ok stations
  ∧ arrivals = published_arrivals ParseFromString env self stations
  ∧ self' = completed ParseFromString env self stations.
Proof.
  intros Hrun Hupd Hdata Hst Harr.
  destruct (update_completed_inv _ _ _ Hrun Hupd) as (d & Hload & ->).
  simpl in Hdata. injection Hdata as <-.
  rewrite published_snapshot_stations in Hst. injection Hst as <-.
  rewrite published_snapshot_arrivals in Harr. injection Harr as <-.
  done.
Qed.

(** The keys of the published arrivals: each has at least one arrival,
    was watched, and names a station of the directory. *)
Lemma published_arrivals_key env self stations k entries :
  published_arrivals ParseFromString env self stations !! k = Some entries →
  entries ≠ []
  ∧ k ∈ watched_stations self
  ∧ is_Some (stations !! Some (drop_last k)).
Proof.
  rewrite published_arrivals_lookup.
  destruct (entries_for k _) as [|a l] eqn:Hentries; [done|].
  intros Heq. injection Heq as <-. split.
  - intros Hnil. by apply (sort_by_time_nil (a :: l)) in Hnil.
  - assert (Hin : a ∈ entries_for k
              (emitted (watched_stations self) stations (time_time env)
                 (decoded (pool_responses env)))).
    { rewrite Hentries. by left. }
    apply elem_of_entries_for, elem_of_emitted in Hin
      as (feed & ent & tu & stu & _ & _ & _ & _ & Hret & -> & _).
    unfold retained in Hret.
    apply andb_prop in Hret as [Hw Hs].
    by apply bool_decide_eq_true in Hw, Hs.
Qed.

(** C1.  After a refresh that ran and returned, every stop id that is a key
    of the published arrivals, with any entry under it, is one of the
    watched stations, and the stop id without its last character is a key
    of the station directory published by the same refresh. *)
Theorem arrivals_keys_watched_and_known
    env self self' snapshot stations arrivals k entries e :
  throttled env self = false →
  update env self = (Ok (), self') →
  data self' = Some snapshot →
  snapshot !! "stations" = Some (Stations stations) →
  snapshot !! "arrivals" = Some (Arrivals arrivals) →
  arrivals !! k = Some entries →
  e ∈ entries →
  k ∈ watched_stations self' ∧ is_Some (stations !! Some (drop_last k)).
Proof.
  intros Hrun Hupd Hdata Hst Harr Hk _.
  destruct (published_inv _ _ _ _ _ _ Hrun Hupd Hdata Hst Harr) as (_ & -> & ->).
  apply published_arrivals_key in Hk as (_ & Hw & Hs). done.
Qed.

(** C2.  After a refresh that ran and returned, the entries under every
    key of the published arrivals are in ascending order of ["time"], and
    the entries of one time are in the order in which the aggregation
    loop appended them. *)
Theorem arrivals_sorted_and_stable
    env self self' snapshot stations arrivals k entries :
  throttled env self = false →
  update env self = (Ok (), self') →
  data self' = Some snapshot →
  snapshot !! "stations" = Some (Stations stations) →
  snapshot !! "arrivals" = Some (Arrivals arrivals) →
  arrivals !! k = Some entries →
  ∃ appended,
    collect_arrivals (watched_stations self) stations (time_time env)
      (decoded (pool_responses env)) !! k = Some appended
    ∧ appended = entries_for k (emitted (watched_stations self) stations (time_time env)
                                  (decoded (pool_responses env)))
    ∧ StronglySorted by_time entries
    ∧ entries ≡ₚ appended
    ∧ ∀ t, filter (λ a, time a = t) entries = filter (λ a, time a = t) appended.
Proof.
  intros Hrun Hupd Hdata Hst Harr Hk.
  destruct (published_inv _ _ _ _ _ _ Hrun Hupd Hdata Hst Harr) as (_ & -> & ->).
  rewrite published_arrivals_lookup in Hk.
  rewrite collect_arrivals_lookup.
  destruct (entries_for k _) as [|a l] eqn:Hentries; [done|].
  injection Hk as <-. exists (a :: l). split; [done|]. split; [done|].
  split; [apply (sort_by_time_sorted (a :: l))|].
  split; [apply (sort_by_time_perm (a :: l))|].
  intros t. apply (sort_by_time_stable t (a :: l)).
Qed.

(** An entry of the published arrivals holds what line 236 computed for
    it. *)
Lemma published_arrivals_entry env self stations k entries e :
  published_arrivals ParseFromString env self stations !! k = Some entries →
  e ∈ entries →
  time_until e = time_until_of (time e) (time_time env).
Proof.
  rewrite published_arrivals_lookup.
  destruct (entries_for k _) as [|a l] eqn:Hentries; [done|].
  intros Heq He. injection Heq as <-.
  apply (elem_of_sort_by_time e (a :: l)) in He. rewrite <- Hentries in He.
  apply elem_of_entries_for, elem_of_emitted in He
    as (feed & ent & tu & stu & _ & _ & _ & _ & _ & _ & ->).
  done.
Qed.

(** C3 as amended.  Every entry of a published snapshot holds under
    ["time_until"] the value of [math.ceil(float(time - now) / 60)] in
    binary64 arithmetic, [now] being the one time read at line 218; when
    [time - now] is at most [2^53] in absolute value this is the exact
    ceiling of [(time - now) / 60], negative as soon as the time is a
    minute or more in the past. *)
Theorem time_until_is_ceiling_in_range
    env self self' snapshot stations arrivals k entries e :
  throttled env self = false →
  update env self = (Ok (), self') →
  data self' = Some snapshot →
  snapshot !! "stations" = Some (Stations stations) →
  snapshot !! "arrivals" = Some (Arrivals arrivals) →
  arrivals !! k = Some entries →
  e ∈ entries →
  time_until e
  = math_ceil (float_div (float_of_int (time e - time_time env)) (float_of_int 60))
  ∧ (Z.abs (time e - time_time env) ≤ 2 ^ 53 →
     time_until e = Zceil_div (time e - time_time env) 60
     ∧ 60 * (time_until e - 1) < time e - time_time env ≤ 60 * time_until e
     ∧ (time e - time_time env ≤ -60 → time_until e < 0)).
Proof.
  intros Hrun Hupd Hdata Hst Harr Hk He.
  destruct (published_inv _ _ _ _ _ _ Hrun Hupd Hdata Hst Harr) as (_ & -> & _).
  rewrite (published_arrivals_entry _ _ _ _ _ _ Hk He).
  split; [done|]. intros Hrange.
  rewrite time_until_of_exact by done.
  pose proof (Zceil_div_spec (time e - time_time env) 60 ltac:(lia)).
  split; [done|]. split; lia.
Qed.

End Refresh.

(** * Failures, throttling and publication *)

Section Control.
Variable csv_reader : list byte → RowStream.
Variable ParseFromString : list byte → option FeedMessage.
Local Abbreviation update := (update csv_reader ParseFromString).

Lemma elem_of_failure_log r responses :
  r ∈ responses →
  (status_code r ≠ 200 → LogNon200 (url r) ∈ failure_log ParseFromString responses)
  ∧ (status_code r = 200 → ParseFromString (content r) = None →
     LogParseFailure (url r) ∈ failure_log ParseFromString responses).
Proof.
  intros Hin. unfold failure_log. split.
  - intros Hstatus. apply list_elem_of_bind. exists r. split; [|done].
    unfold failure_record. rewrite bool_decide_eq_true_2 by done. by left.
  - intros Hstatus Hparse. apply list_elem_of_bind. exists r. split; [|done].
    unfold failure_record. rewrite bool_decide_eq_false_2 by (intros ?; done).
    rewrite Hparse. by left.
Qed.

Lemma elem_of_decoded feed responses :
  feed ∈ decoded ParseFromString responses ↔
  ∃ r, r ∈ responses ∧ status_code r = 200 ∧ ParseFromString (content r) = Some feed.
Proof.
  unfold decoded. rewrite list_elem_of_omap. unfold decodes.
  split; intros (r & Hin & H); exists r; (split; [done|]).
  - destruct (decide (status_code r = 200)) as [Heq|Hne].
    + by rewrite bool_decide_eq_false_2 in H by (intros ?; done).
    + by rewrite bool_decide_eq_true_2 in H by done.
  - destruct H as [Hs Hp]. by rewrite bool_decide_eq_false_2 by (intros ?; done).
Qed.

(** C4.  The feed fetcher never raises: a response with a status other
    than 200 or with a body that does not decode is logged and left out,
    the others are decoded in order.  So a refresh whose station
    directory loads returns normally and publishes the aggregation of
    exactly the feeds that decoded, each of their retained stop-time
    updates being an entry of the snapshot; when no feed decodes the
    published arrivals are empty. *)
Theorem feed_failures_are_skipped env self stations :
  throttled env self = false →
  (get_stations csv_reader env self).1 = Ok stations →
  ∃ self' arrivals,
    (∀ s, (get_realtime_data ParseFromString env s).1
          = Ok (decoded ParseFromString (pool_responses env)))
    ∧ update env self = (Ok (), self')
    ∧ data self'
      = Some (<["arrivals" := Arrivals arrivals]> {["stations" := Stations stations]})
    ∧ arrivals
      = sort_by_time <$>
          collect_arrivals (watched_stations self) stations (time_time env)
            (decoded ParseFromString (pool_responses env))
    ∧ (∀ feed, feed ∈ decoded ParseFromString (pool_responses env) ↔
         ∃ r, r ∈ pool_responses env ∧ status_code r = 200
              ∧ ParseFromString (content r) = Some feed)
    ∧ (∀ r, r ∈ pool_responses env →
         (status_code r ≠ 200 → LogNon200 (url r) ∈ journal self')
         ∧ (status_code r = 200 → ParseFromString (content r) = None →
            LogParseFailure (url r) ∈ journal self'))
    ∧ (∀ r feed ent tu stu,
         r ∈ pool_responses env → status_code r = 200 →
         ParseFromString (content r) = Some feed →
         ent ∈ entity feed → trip_update ent = Some tu →
         stu ∈ stop_time_update tu →
         retained (watched_stations self) stations (stop_id stu) = true →
         ∃ entries,
           arrivals !! stop_id stu = Some entries
           ∧ make_arrival (time_time env) (header_timestamp feed) (route_id tu) stu
             ∈ entries)
    ∧ ((∀ r, r ∈ pool_responses env →
          status_code r ≠ 200 ∨ ParseFromString (content r) = None) →
       arrivals = ∅).
Proof.
  intros Hrun Hload. rewrite get_stations_run in Hload. simpl in Hload.
  exists (completed ParseFromString env self stations),
         (published_arrivals ParseFromString env self stations).
  split; [intros s; by rewrite get_realtime_data_run|].
  split; [by rewrite update_run, Hrun, Hload|].
  split; [done|]. split; [done|].
  split; [intros feed; apply elem_of_decoded|].
  split.
  { intros r Hin. destruct (elem_of_failure_log r _ Hin) as [Hbad Hgarbled].
    simpl. split.
    - intros Hs. apply elem_of_app. right. do 2 right. by apply Hbad.
    - intros Hs Hp. apply elem_of_app. right. do 2 right. by apply Hgarbled. }
  split.
  { intros r feed ent tu stu Hin Hs Hp Hent Htu Hstu Hret.
    assert (Hem : (stop_id stu,
                   make_arrival (time_time env) (header_timestamp feed) (route_id tu) stu)
                  ∈ emitted (watched_stations self) stations (time_time env)
                      (decoded ParseFromString (pool_responses env))).
    { apply elem_of_emitted. exists feed, ent, tu, stu.
      split; [apply elem_of_decoded; by exists r|done]. }
    apply elem_of_entries_for in Hem.
    rewrite published_arrivals_lookup.
    destruct (entries_for _ _) as [|a l] eqn:Hentries; [by apply elem_of_nil in Hem|].
    eexists. split; [done|]. by apply (elem_of_sort_by_time _ (a :: l)). }
  intros Hall. unfold published_arrivals.
  assert (Hnone : decoded ParseFromString (pool_responses env) = []).
  { apply elem_of_nil_inv. intros feed (r & Hin & Hs & Hp)%elem_of_decoded.
    destruct (Hall r Hin) as [Hne|Hnp]; [done|congruence]. }
  rewrite Hnone. apply fmap_empty.
Qed.

(** C6.  When the refresh runs and the station directory load raises,
    [update] raises the same exception; [self.data] is what it was
    before the call (absent if it was absent), and so is the time kept by
    the throttle; the feeds were not requested. *)
Theorem station_failure_aborts_refresh env self e :
  throttled env self = false →
  (get_stations csv_reader env self).1 = Raise e →
  ∃ self',
    update env self = (Raise e, self')
    ∧ data self' = data self
    ∧ throttle_last self' = throttle_last self
    ∧ watched_stations self' = watched_stations self
    ∧ journal self' = journal self ++ [GetStations].
Proof.
  intros Hrun Hload. rewrite get_stations_run in Hload. simpl in Hload.
  exists (add_events [GetStations] self).
  by rewrite update_run, Hrun, Hload.
Qed.

Lemma throttled_call_is_noop env self last :
  throttle_last self = Some last →
  utcnow_check env - last ≤ SCAN_INTERVAL →
  update env self = (Ok (), self).
Proof.
  intros Hlast Hsoon. rewrite update_run. unfold throttled. rewrite Hlast.
  rewrite bool_decide_eq_false_2 by lia. done.
Qed.

(** C7.  When a call of [update] refreshed and returned, a second call
    made after it returned and less than [SCAN_INTERVAL] after it began
    requests neither the station directory nor the feeds (the journal is
    unchanged) and leaves [self.data] what the first call published;
    so do the calls made between the two. *)
Theorem second_call_within_interval_is_noop env1 self self1 between env2 :
  throttled env1 self = false →
  update env1 self = (Ok (), self1) →
  utcnow_check env1 ≤ utcnow_done env1 →
  (∀ env, env ∈ between ++ [env2] →
     utcnow_done env1 ≤ utcnow_check env
     ∧ utcnow_check env - utcnow_check env1 < SCAN_INTERVAL) →
  after_calls csv_reader ParseFromString between self1 = self1
  ∧ update env2 (after_calls csv_reader ParseFromString between self1) = (Ok (), self1)
  ∧ journal (update env2 (after_calls csv_reader ParseFromString between self1)).2 = journal self1
  ∧ data (update env2 (after_calls csv_reader ParseFromString between self1)).2 = data self1.
Proof.
  intros Hrun Hupd Hclock Hwindow.
  destruct (update_completed_inv _ _ _ _ _ Hrun Hupd) as (stations & _ & Hself1).
  assert (Hlast : throttle_last self1 = Some (utcnow_done env1)) by by subst.
  assert (Hnoop : ∀ env, env ∈ between ++ [env2] → update env self1 = (Ok (), self1)).
  { intros env Hin. apply (throttled_call_is_noop _ _ _ Hlast).
    destruct (Hwindow env Hin). lia. }
  assert (Hbetween : after_calls csv_reader ParseFromString between self1 = self1).
  { clear Hwindow. unfold after_calls.
    induction between as [|env envs IH]; [done|]. simpl.
    rewrite (Hnoop env) by (by left). simpl. apply IH.
    intros env' Hin. apply Hnoop. by right. }
  rewrite Hbetween, Hnoop; [done|]. apply elem_of_app. right. by left.
Qed.

(** The read of [MTASubwaySensor.update] at line 128, for a stop id that
    is not a key of the published arrivals: it returns the empty list and
    leaves the stop id in the published arrivals, mapped to the empty
    list. *)
Lemma read_station_data_inserts self snapshot arrivals k :
  data self = Some snapshot →
  snapshot !! "arrivals" = Some (Arrivals arrivals) →
  arrivals !! k = None →
  ∃ self',
    read_station_data k self = (Ok [], self')
    ∧ data self' = Some (<["arrivals" := Arrivals (<[k := []]> arrivals)]> snapshot).
Proof.
  intros Hdata Harr Hk.
  unfold read_station_data, mbind, M_bind, get_self.
  rewrite Hdata, Harr. unfold defaultdict_getitem. rewrite Hk.
  unfold set_data, mret, M_ret. eexists. split; [done|]. done.
Qed.

(** C8 as amended.  For every stop id, watched or not, for which no
    decoded feed holds a stop-time update, the arrivals a refresh
    publishes have no key; and no key of them is mapped to the empty
    list. *)
Theorem absent_when_published env self self' snapshot stations arrivals k :
  throttled env self = false →
  update env self = (Ok (), self') →
  data self' = Some snapshot →
  snapshot !! "stations" = Some (Stations stations) →
  snapshot !! "arrivals" = Some (Arrivals arrivals) →
  (∀ feed ent tu stu,
     feed ∈ decoded ParseFromString (pool_responses env) → ent ∈ entity feed →
     trip_update ent = Some tu → stu ∈ stop_time_update tu → stop_id stu ≠ k) →
  arrivals !! k = None ∧ ∀ k', arrivals !! k' ≠ Some [].
Proof.
  intros Hrun Hupd Hdata Hst Harr Hnone.
  destruct (published_inv _ _ _ _ _ _ _ _ Hrun Hupd Hdata Hst Harr) as (_ & Heq & _).
  split.
  - rewrite Heq, published_arrivals_lookup.
    destruct (entries_for k _) as [|a l] eqn:Hentries; [done|]. exfalso.
    assert (Hin : a ∈ entries_for k
              (emitted (watched_stations self) stations (time_time env)
                 (decoded ParseFromString (pool_responses env)))).
    { rewrite Hentries. by left. }
    apply elem_of_entries_for, elem_of_emitted in Hin
      as (feed & ent & tu & stu & Hfeed & Hent & Htu & Hstu & _ & Hid & _).
    by apply (Hnone feed ent tu stu).
  - intros k' Hk'. rewrite Heq in Hk'.
    by apply published_arrivals_key in Hk' as (Hne & _).
Qed.

(** C9 as amended.  A refresh that runs and returns publishes a mapping
    with exactly the two keys ["stations"] and ["arrivals"], holding the
    directory this refresh loaded and the arrivals it aggregated; no
    time of generation is part of it (the time of completion is kept by
    the throttle, outside [self.data]).  The new mapping is assigned as
    a whole and owes nothing to the one it replaces. *)
Theorem refresh_publishes_stations_and_arrivals env self self' :
  throttled env self = false →
  update env self = (Ok (), self') →
  ∃ snapshot stations,
    (get_stations csv_reader env self).1 = Ok stations
    ∧ data self' = Some snapshot
    ∧ (∀ key, is_Some (snapshot !! key) ↔ key = "stations" ∨ key = "arrivals")
    ∧ snapshot !! "stations" = Some (Stations stations)
    ∧ snapshot !! "arrivals"
      = Some (Arrivals (sort_by_time <$>
                          collect_arrivals (watched_stations self) stations (time_time env)
                            (decoded ParseFromString (pool_responses env))))
    ∧ throttle_last self' = Some (utcnow_done env)
    ∧ ∀ other,
        watched_stations other = watched_stations self →
        throttled env other = false →
        data (update env other).2 = Some snapshot.
Proof.
  intros Hrun Hupd.
  destruct (update_completed_inv _ _ _ _ _ Hrun Hupd) as (stations & Hload & ->).
  exists (published_snapshot ParseFromString env self stations), stations.
  split; [by rewrite get_stations_run|]. split; [done|].
  split; [apply published_snapshot_keys|].
  split; [apply published_snapshot_stations|].
  split; [apply published_snapshot_arrivals|]. split; [done|].
  intros other Hwatched Hother. rewrite update_run, Hother, Hload. simpl.
  unfold published_snapshot, published_arrivals. by rewrite Hwatched.
Qed.

End Control.

(** * The station directory loader *)

Lemma foldl_insert_is_Some {V} (f : string → V) (l : list string)
    (d : gmap string V) k :
  is_Some (foldl (λ d c, <[c := f c]> d) d l !! k) ↔ k ∈ l ∨ is_Some (d !! k).
Proof.
  revert d. induction l as [|c l IH]; intros d; simpl.
  - rewrite elem_of_nil. tauto.
  - rewrite IH, lookup_insert_is_Some, elem_of_cons.
    destruct (decide (c = k)); subst; intuition congruence.
Qed.

Lemma foldl_insert_pairs_is_Some (l : list (string * string))
    (d : gmap string (option string)) k :
  is_Some (foldl (λ d kv, <[kv.1 := Some kv.2]> d) d l !! k)
  ↔ k ∈ l.*1 ∨ is_Some (d !! k).
Proof.
  revert d. induction l as [|[c v] l IH]; intros d; simpl.
  - rewrite elem_of_nil. tauto.
  - rewrite IH, lookup_insert_is_Some, elem_of_cons.
    destruct (decide (c = k)); subst; intuition congruence.
Qed.

Lemma fst_zip_take {A B} (l : list A) (k : list B) :
  (zip l k).*1 = take (length k) l.
Proof.
  revert k. induction l as [|x l IH]; intros [|y k]; simpl; try done.
  by rewrite IH.
Qed.

(** The keys of a row are the columns of the header. *)
Lemma dict_of_row_is_Some fieldnames fields k :
  is_Some (dict_of_row fieldnames fields !! k) ↔ k ∈ fieldnames.
Proof.
  unfold dict_of_row.
  rewrite (foldl_insert_is_Some (λ _, None)), foldl_insert_pairs_is_Some.
  rewrite lookup_empty, fst_zip_take.
  assert (Hsplit : k ∈ fieldnames
                   ↔ k ∈ take (length fields) fieldnames
                     ∨ k ∈ drop (length fields) fieldnames).
  { by rewrite <- elem_of_app, take_drop. }
  rewrite Hsplit. split; [|tauto].
  intros [?|[?|[? ?]]]; [tauto|tauto|done].
Qed.

Lemma getitem_present fieldnames fields c :
  c ∈ fieldnames →
  getitem (dict_of_row fieldnames fields) c = Ok (field fieldnames fields c).
Proof.
  intros Hc. apply (dict_of_row_is_Some fieldnames fields) in Hc as [v Hv].
  unfold getitem, field. by rewrite Hv.
Qed.

Lemma getitem_missing fieldnames fields c :
  c ∉ fieldnames →
  getitem (dict_of_row fieldnames fields) c = Raise (KeyError c).
Proof.
  intros Hc. unfold getitem.
  destruct (dict_of_row fieldnames fields !! c) eqn:Hv; [|done].
  exfalso. apply Hc, (dict_of_row_is_Some fieldnames fields). by eexists.
Qed.

(** The lookup of one column: it raises, or it gives the field. *)
Ltac column c :=
  let Hc := fresh "Hc" in
  match goal with
  | |- context [decide (c ∉ ?fieldnames)] =>
      destruct (decide (c ∉ fieldnames)) as [Hc|Hc%dec_stable];
        [by rewrite (getitem_missing _ _ _ Hc)
        |rewrite (getitem_present _ _ _ Hc)]
  end.

(** One pass of the loop body over a row that is not blank. *)
Lemma read_station_rows_data fieldnames f fs rest acc :
  read_station_rows fieldnames (Row (f :: fs) rest) acc
  = match filter (λ c, c ∉ fieldnames) required_columns with
    | c :: _ => Raise (KeyError c)
    | [] => read_station_rows fieldnames rest
              (<[key_of fieldnames (f :: fs) := station_of fieldnames (f :: fs)]> acc)
    end.
Proof.
  unfold required_columns. simpl read_station_rows.
  rewrite !filter_cons, filter_nil.
  column "Stop Name". column "South Direction Label".
  column "North Direction Label". column "Complex ID". column "GTFS Stop ID".
  done.
Qed.

Lemma read_station_rows_blank fieldnames rest acc :
  read_station_rows fieldnames (Row [] rest) acc = read_station_rows fieldnames rest acc.
Proof. done. Qed.

Lemma read_station_rows_missing fieldnames rows acc c others :
  filter (λ c, c ∉ fieldnames) required_columns = c :: others →
  has_data_row rows = true →
  read_station_rows fieldnames rows acc = Raise (KeyError c).
Proof.
  intros Hmissing. induction rows as [|fields rest IH|]; [done| |done].
  destruct fields as [|f fs]; [exact IH|].
  intros _. by rewrite read_station_rows_data, Hmissing.
Qed.

Lemma read_station_rows_complete fieldnames rows acc :
  required_columns ⊆ fieldnames →
  read_station_rows fieldnames (stream_of rows) acc
  = Ok (foldl (add_row fieldnames) acc rows).
Proof.
  intros Hall.
  assert (Hnone : filter (λ c, c ∉ fieldnames) required_columns = []).
  { apply elem_of_nil_inv. intros c [Hc Hin]%list_elem_of_filter. by apply Hc, Hall. }
  revert acc. induction rows as [|fields rows IH]; intros acc; [done|].
  destruct fields as [|f fs]; simpl stream_of.
  - rewrite read_station_rows_blank. apply IH.
  - rewrite read_station_rows_data, Hnone. apply IH.
Qed.

Lemma foldl_add_row_lookup fieldnames rows acc id :
  foldl (add_row fieldnames) acc rows !! id
  = match last (rows_of fieldnames id rows) with
    | Some fields => Some (station_of fieldnames fields)
    | None => acc !! id
    end.
Proof.
  revert acc. induction rows as [|fields rows IH]; intros acc; [done|].
  simpl foldl. rewrite IH. unfold rows_of. rewrite filter_cons.
  destruct (decide (fields ≠ [] ∧ key_of fieldnames fields = id)) as [[Hne Hid]|Hno].
  - rewrite last_cons. destruct (last (filter _ rows)); [done|].
    destruct fields; [done|]. simpl. rewrite Hid. apply lookup_insert_eq.
  - destruct (last (filter _ rows)); [done|].
    destruct fields as [|f fs]; [done|]. simpl.
    apply lookup_insert_ne. intros Hid. apply Hno. by split.
Qed.

(** When the loop returns, the reader ended normally and every row it
    yielded went into the directory. *)
Lemma read_station_rows_returns fieldnames rows acc stations :
  read_station_rows fieldnames rows acc = Ok stations →
  ∃ l, rows = stream_of l
       ∧ stations = foldl (add_row fieldnames) acc l
       ∧ (has_data_row rows = true → required_columns ⊆ fieldnames).
Proof.
  revert acc. induction rows as [|fields rest IH|]; intros acc Hrun.
  - exists []. injection Hrun as <-. done.
  - destruct fields as [|f fs].
    + destruct (IH acc Hrun) as (l & -> & -> & Hcols). by exists ([] :: l).
    + rewrite read_station_rows_data in Hrun.
      destruct (filter (λ c, c ∉ fieldnames) required_columns) as [|c others] eqn:Hf;
        [|done].
      destruct (IH _ Hrun) as (l & -> & -> & _). exists ((f :: fs) :: l).
      split; [done|]. split; [done|]. intros _ c Hc.
      destruct (decide (c ∈ fieldnames)) as [Hin|Hout]; [done|].
      exfalso. apply (elem_of_nil c). rewrite <- Hf. by apply list_elem_of_filter.
  - done.
Qed.

Section Loader.
Variable csv_reader : list byte → RowStream.

(** The status code of a reply is not looked at: two replies with the
    same body load alike. *)
Lemma station_load_ignores_status env env' self r r' :
  stations_reply env = Ok r → stations_reply env' = Ok r' →
  content r' = content r →
  (get_stations csv_reader env' self).1 = (get_stations csv_reader env self).1.
Proof.
  intros Hr Hr' Hbody. rewrite !get_stations_run. simpl.
  unfold load_stations. by rewrite Hr, Hr', Hbody.
Qed.

(** X22.  What [__get_stations] does with a reply, the status code
    apart.  It raises what [requests.get] raises when the request does not
    complete.  When a required column is missing from the header and the
    reader yields a row that is not blank, it raises [KeyError] for a
    missing column.  It never returns a part of the table: when it
    returns, the reader has ended without an error, every row the reader
    yielded after the header has gone into the directory, and the header
    has every required column unless all those rows are blank.
    [self.data] is untouched by it. *)
Theorem station_load_all_or_nothing env self :
  (∀ e, stations_reply env = Raise e →
        (get_stations csv_reader env self).1 = Raise e)
  ∧ (∀ r fieldnames rest col,
       stations_reply env = Ok r →
       csv_reader (content r) = Row fieldnames rest →
       col ∈ required_columns → col ∉ fieldnames →
       has_data_row rest = true →
       ∃ c, c ∈ required_columns ∧ (c ∉ fieldnames)
            ∧ (get_stations csv_reader env self).1 = Raise (KeyError c))
  ∧ (∀ r stations,
       stations_reply env = Ok r →
       (get_stations csv_reader env self).1 = Ok stations →
       (csv_reader (content r) = EndOfRows ∧ stations = ∅)
       ∨ ∃ fieldnames rows,
           csv_reader (content r) = Row fieldnames (stream_of rows)
           ∧ stations = foldl (add_row fieldnames) ∅ rows
           ∧ ((∃ fields, fields ∈ rows ∧ fields ≠ []) → required_columns ⊆ fieldnames))
  ∧ data (get_stations csv_reader env self).2 = data self.
Proof.
  rewrite get_stations_run. simpl. unfold load_stations.
  split; [by intros e ->|].
  split.
  { intros r fieldnames rest col -> Hrows Hreq Hmiss Hdata. rewrite Hrows. simpl.
    destruct (filter (λ c, c ∉ fieldnames) required_columns) as [|c others] eqn:Hf.
    - exfalso. apply (elem_of_nil col). rewrite <- Hf. by apply list_elem_of_filter.
    - exists c.
      assert (Hc : c ∈ filter (λ c, c ∉ fieldnames) required_columns)
        by (rewrite Hf; by left).
      apply list_elem_of_filter in Hc as [Hc1 Hc2].
      split; [done|]. split; [done|].
      by apply (read_station_rows_missing _ _ _ _ others). }
  split; [|done].
  intros r stations -> Hrun. unfold read_stations in Hrun.
  destruct (csv_reader (content r)) as [|fieldnames rest|]; [|right|done].
  { left. injection Hrun as <-. done. }
  destruct (read_station_rows_returns _ _ _ _ Hrun) as (l & -> & -> & Hcols).
  exists fieldnames, l. split; [done|]. split; [done|].
  intros (fields & Hin & Hne). apply Hcols. clear Hrun Hcols.
  induction l as [|row l IH]; [by apply elem_of_nil in Hin|].
  destruct row as [|f fs]; [|done]. simpl.
  apply elem_of_cons in Hin as [-> | Hin]; [done | by apply IH].
Qed.

(** C10.  When the header has every required column and the reader ends
    without an error, the load returns a directory that maps each stop id
    to the station of the last row with that id (and to nothing when no
    row has it), whatever rows with the same id came before; the keys of
    the directory are distinct. *)
Theorem duplicate_stop_ids_last_row_wins env self r fieldnames rows :
  stations_reply env = Ok r →
  csv_reader (content r) = Row fieldnames (stream_of rows) →
  required_columns ⊆ fieldnames →
  ∃ stations,
    (get_stations csv_reader env self).1 = Ok stations
    ∧ (∀ id, stations !! id
             = station_of fieldnames <$> last (rows_of fieldnames id rows))
    ∧ NoDup (map_to_list stations).*1.
Proof.
  intros Hr Hrows Hall. rewrite get_stations_run. simpl.
  unfold load_stations. rewrite Hr, Hrows. simpl.
  rewrite read_station_rows_complete by done.
  eexists. split; [done|]. split.
  - intros id. rewrite foldl_add_row_lookup, lookup_empty.
    by destruct (last _).
  - apply NoDup_fst_map_to_list.
Qed.

End Loader.

(** * The theorems at work on the concrete world *)

Lemma elem_of_stop_time_updates_of feeds feed ent tu stu :
  feed ∈ feeds → ent ∈ entity feed → trip_update ent = Some tu →
  stu ∈ stop_time_update tu → stu ∈ stop_time_updates_of feeds.
Proof.
  intros Hfeed Hent Htu Hstu. unfold stop_time_updates_of.
  apply list_elem_of_bind. exists feed. split; [|done].
  apply list_elem_of_bind. exists ent. split; [|done]. by rewrite Htu.
Qed.

Lemma first_refresh :
  update Demo.csv_reader Demo.ParseFromString Demo.env Demo.fresh
  = (Ok (), Demo.refreshed).
Proof. vm_compute. reflexivity. Qed.

Lemma arrivals_keys_watched_and_known_witness :
  "101N" ∈ watched_stations Demo.refreshed
  ∧ is_Some (Demo.directory !! Some (drop_last "101N")).
Proof.
  apply (arrivals_keys_watched_and_known Demo.csv_reader Demo.ParseFromString
           Demo.env Demo.fresh Demo.refreshed Demo.snapshot Demo.directory
           Demo.arrivals "101N" Demo.entries
           {| time := 1030; line := "2"; last_updated := 1000; time_until := 1 |}).
  - reflexivity.
  - vm_compute. reflexivity.
  - reflexivity.
  - vm_compute. reflexivity.
  - vm_compute. reflexivity.
  - vm_compute. reflexivity.
  - right. left.
Defined.

Lemma arrivals_sorted_and_stable_witness :
  StronglySorted by_time Demo.entries
  ∧ filter (λ a, time a = 1090) Demo.entries
    = filter (λ a, time a = 1090) Demo.appended.
Proof.
  destruct (arrivals_sorted_and_stable Demo.csv_reader Demo.ParseFromString
              Demo.env Demo.fresh Demo.refreshed Demo.snapshot Demo.directory
              Demo.arrivals "101N" Demo.entries)
    as (appended & Hcollect & Happended & Hsorted & Hperm & Hstable).
  - reflexivity.
  - vm_compute. reflexivity.
  - reflexivity.
  - vm_compute. reflexivity.
  - vm_compute. reflexivity.
  - vm_compute. reflexivity.
  - split; [exact Hsorted|].
    rewrite (Hstable 1090), Happended. vm_compute. reflexivity.
Defined.

Lemma feed_failures_are_skipped_witness :
  ∃ self',
    update Demo.csv_reader Demo.ParseFromString Demo.env Demo.fresh = (Ok (), self')
    ∧ LogNon200 (url Demo.unavailable) ∈ journal self'
    ∧ LogParseFailure (url Demo.garbled) ∈ journal self'.
Proof.
  destruct (feed_failures_are_skipped Demo.csv_reader Demo.ParseFromString
              Demo.env Demo.fresh Demo.directory)
    as (self' & arrivals & _ & Hupd & _ & _ & _ & Hlog & _).
  - reflexivity.
  - vm_compute. reflexivity.
  - exists self'. split; [exact Hupd|]. split.
    + apply (Hlog Demo.unavailable); [left | vm_compute; discriminate].
    + apply (Hlog Demo.garbled); [right; right; left | reflexivity | reflexivity].
Defined.

Lemma station_failure_aborts_refresh_witness :
  ∃ self',
    update Demo.csv_reader Demo.ParseFromString Demo.env_offline Demo.refreshed
    = (Raise RequestException, self')
    ∧ data self' = Some Demo.snapshot.
Proof.
  destruct (station_failure_aborts_refresh Demo.csv_reader Demo.ParseFromString
              Demo.env_offline Demo.refreshed RequestException)
    as (self' & Hupd & Hdata & _).
  - vm_compute. reflexivity.
  - reflexivity.
  - exists self'. split; [exact Hupd | exact Hdata].
Defined.

Lemma second_call_within_interval_is_noop_witness :
  update Demo.csv_reader Demo.ParseFromString Demo.env_soon Demo.refreshed
  = (Ok (), Demo.refreshed).
Proof.
  apply (second_call_within_interval_is_noop Demo.csv_reader Demo.ParseFromString
           Demo.env Demo.fresh Demo.refreshed [] Demo.env_soon).
  - reflexivity.
  - vm_compute. reflexivity.
  - vm_compute. discriminate.
  - intros env Henv. apply list_elem_of_singleton in Henv as ->.
    split; [vm_compute; discriminate | reflexivity].
Defined.

(** C8, as stated, fails: ["103S"] is watched and no feed has a stop-time
    update for it, yet after the sensor of that stop read the snapshot
    (its call of [update] being throttled) the published arrivals map it
    to the empty list. *)
Lemma sensor_read_leaves_empty_list :
  let self2 :=
    (sensor_update Demo.csv_reader Demo.ParseFromString
       (MTASubwaySensor_init "103S") Demo.env_soon Demo.refreshed).2 in
  "103S" ∈ watched_stations Demo.fresh
  ∧ ("103S" ∉ stop_id <$>
       stop_time_updates_of (decoded Demo.ParseFromString (pool_responses Demo.env)))
  ∧ ∃ snapshot arrivals,
      data self2 = Some snapshot
      ∧ snapshot !! "arrivals" = Some (Arrivals arrivals)
      ∧ arrivals !! "103S" = Some [].
Proof.
  split; [right; right; left|]. split.
  - apply (bool_decide_unpack _). vm_compute. exact I.
  - exists (<["arrivals" := Arrivals (<["103S" := []]> Demo.arrivals)]> Demo.snapshot),
           (<["103S" := []]> Demo.arrivals).
    split; [vm_compute; reflexivity|]. split; vm_compute; reflexivity.
Qed.

Lemma absent_when_published_witness :
  Demo.arrivals !! "103S" = None ∧ ∀ k', Demo.arrivals !! k' ≠ Some [].
Proof.
  apply (absent_when_published Demo.csv_reader Demo.ParseFromString
           Demo.env Demo.fresh Demo.refreshed Demo.snapshot Demo.directory
           Demo.arrivals "103S").
  - reflexivity.
  - vm_compute. reflexivity.
  - reflexivity.
  - vm_compute. reflexivity.
  - vm_compute. reflexivity.
  - intros feed ent tu stu Hfeed Hent Htu Hstu Hid.
    assert (Hin : "103S" ∈ stop_id <$>
              stop_time_updates_of
                (decoded Demo.ParseFromString (pool_responses Demo.env))).
    { rewrite <- Hid. apply list_elem_of_fmap_2.
      by apply (elem_of_stop_time_updates_of _ feed ent tu). }
    revert Hin. apply (bool_decide_unpack _). vm_compute. exact I.
Defined.

(** C9, as stated, fails: the snapshot a refresh publishes has the two keys
    ["stations"] and ["arrivals"] and nothing else, so no time of
    generation. *)
Lemma snapshot_has_no_generation_time :
  ∃ snapshot,
    data (update Demo.csv_reader Demo.ParseFromString Demo.env Demo.fresh).2
    = Some snapshot
    ∧ snapshot !! "generatedAt" = None
    ∧ size snapshot = 2%nat
    ∧ ¬ ∃ key, key ≠ "stations" ∧ key ≠ "arrivals" ∧ is_Some (snapshot !! key).
Proof.
  exists Demo.snapshot. rewrite first_refresh.
  split; [reflexivity|]. split; [vm_compute; reflexivity|].
  split; [vm_compute; reflexivity|].
  intros (key & Hs & Ha & Hkey).
  apply (published_snapshot_keys Demo.ParseFromString Demo.env Demo.fresh Demo.directory)
    in Hkey as [->| ->]; done.
Qed.

Lemma refresh_publishes_stations_and_arrivals_witness :
  ∃ snapshot,
    data Demo.refreshed = Some snapshot
    ∧ ∀ key, is_Some (snapshot !! key) ↔ key = "stations" ∨ key = "arrivals".
Proof.
  destruct (refresh_publishes_stations_and_arrivals Demo.csv_reader Demo.ParseFromString
              Demo.env Demo.fresh Demo.refreshed)
    as (snapshot & stations & _ & Hdata & Hkeys & _).
  - reflexivity.
  - vm_compute. reflexivity.
  - exists snapshot. split; [exact Hdata | exact Hkeys].
Defined.

(** C5.  The load does not fail on a reply without a success status:
    a reply with status 503, whose one line is the notice of the server,
    loads as the empty directory, and the refresh goes on and returns.
    [__get_stations] never reads [r.status_code], which the feed path
    tests at line 187. *)
Lemma outage_loads_as_empty_directory :
  ∃ r,
    stations_reply Demo.env_outage = Ok r
    ∧ status_code r = 503
    ∧ Demo.csv_reader (content r) = Row ["Service Unavailable"] EndOfRows
    ∧ (get_stations Demo.csv_reader Demo.env_outage Demo.fresh).1 = Ok ∅
    ∧ (update Demo.csv_reader Demo.ParseFromString Demo.env_outage Demo.fresh).1 = Ok ().
Proof.
  exists Demo.outage. repeat split; vm_compute; reflexivity.
Qed.

Lemma station_load_all_or_nothing_witness :
  ∃ c, c ∈ required_columns
       ∧ (get_stations Demo.csv_reader Demo.env_truncated Demo.fresh).1
         = Raise (KeyError c).
Proof.
  destruct (station_load_all_or_nothing Demo.csv_reader Demo.env_truncated Demo.fresh)
    as (_ & Hmissing & _).
  destruct (Hmissing Demo.truncated
              ["GTFS Stop ID"; "Complex ID"; "North Direction Label";
               "South Direction Label"]
              (Row ["101"; "293"; "Uptown"; "Downtown"] EndOfRows)
              "Stop Name")
    as (c & Hc & _ & Hraise).
  - reflexivity.
  - vm_compute. reflexivity.
  - left.
  - apply (bool_decide_unpack _). vm_compute. exact I.
  - reflexivity.
  - exists c. split; [exact Hc | exact Hraise].
Defined.

Lemma duplicate_stop_ids_last_row_wins_witness :
  ∃ stations,
    (get_stations Demo.csv_reader Demo.env Demo.fresh).1 = Ok stations
    ∧ stations !! Some "101"
      = Some {| stop_name := Some "Van Cortlandt Park - 242 St";
                south_direction_label := Some "";
                north_direction_label := Some "Manhattan";
                complex_id := Some "293" |}.
Proof.
  destruct (duplicate_stop_ids_last_row_wins Demo.csv_reader Demo.env Demo.fresh
              Demo.table Demo.header Demo.rows)
    as (stations & Hload & Hlookup & _).
  - reflexivity.
  - vm_compute. reflexivity.
  - apply (bool_decide_unpack _). vm_compute. exact I.
  - exists stations. split; [exact Hload|].
    rewrite Hlookup. vm_compute. reflexivity.
Defined.

(** C3, as stated, fails: for a train reported 9007199254741021 seconds
    ahead, the conversion to a float loses the last second and the
    published ["time_until"] is one minute short of the ceiling. *)
Lemma far_arrival_is_a_minute_short :
  ∃ snapshot arrivals e,
    data (update Demo.csv_reader Demo.ParseFromString Demo.env_far Demo.fresh).2
    = Some snapshot
    ∧ snapshot !! "arrivals" = Some (Arrivals arrivals)
    ∧ arrivals !! "101N" = Some [e]
    ∧ time e - time_time Demo.env_far = 9007199254741021
    ∧ time_until e = 150119987579017
    ∧ Zceil_div (time e - time_time Demo.env_far) 60 = 150119987579018.
Proof.
  eexists _, _, _. split; [vm_compute; reflexivity|].
  split; [vm_compute; reflexivity|].
  split; [vm_compute; reflexivity|].
  repeat split.
Qed.

Lemma time_until_is_ceiling_in_range_witness :
  time_until {| time := 930; line := "3"; last_updated := 1000; time_until := -1 |}
  = Zceil_div (930 - 1000) 60
  ∧ time_until {| time := 930; line := "3"; last_updated := 1000; time_until := -1 |} < 0.
Proof.
  destruct (time_until_is_ceiling_in_range Demo.csv_reader Demo.ParseFromString
              Demo.env Demo.fresh Demo.refreshed Demo.snapshot Demo.directory
              Demo.arrivals "101N" Demo.entries
              {| time := 930; line := "3"; last_updated := 1000; time_until := -1 |})
    as [_ Hrange].
  - reflexivity.
  - vm_compute. reflexivity.
  - reflexivity.
  - vm_compute. reflexivity.
  - vm_compute. reflexivity.
  - vm_compute. reflexivity.
  - left.
  - destruct Hrange as (Hceil & _ & Hpast); [vm_compute; discriminate|].
    split; [exact Hceil|]. apply Hpast. vm_compute. discriminate.
Defined.

(** * Further properties of the code *)

(** ** Stop ids and the aggregation *)

Lemma drop_last_app base c : drop_last (String.append base (String c "")) = base.
Proof.
  induction base as [|c' base IH]; [done|].
  change (String.append (String c' base) (String c ""))
    with (String c' (String.append base (String c ""))).
  simpl drop_last. rewrite IH. by destruct base.
Qed.

Lemma drop_last_length s : String.length (drop_last s) = Nat.pred (String.length s).
Proof.
  induction s as [|c s IH]; [done|].
  destruct s as [|c' s]; [done|].
  change (drop_last (String c (String c' s))) with (String c (drop_last (String c' s))).
  simpl String.length in *. by rewrite IH.
Qed.

(** X1.  [stop_id[:-1]] undoes the appending of one character, whatever
    the character, and shortens every string that is not empty by one. *)
Theorem stop_id_without_direction base c s :
  drop_last (String.append base (String c "")) = base
  ∧ String.length (drop_last s) = Nat.pred (String.length s)
  ∧ drop_last "" = "".
Proof. split; [apply drop_last_app|]. split; [apply drop_last_length|done]. Qed.

Lemma entries_for_app k ems1 ems2 :
  entries_for k (ems1 ++ ems2) = entries_for k ems1 ++ entries_for k ems2.
Proof. unfold entries_for. by rewrite filter_app, fmap_app. Qed.

Section Counting.
Variable watched : list string.
Variable stations : StationDirectory.
Variable current_time : Z.

Lemma length_entries_for_updates k header_ts route stus :
  length (entries_for k (stus ≫= emitted_by_update watched stations current_time
                                   header_ts route))
  = if retained watched stations k
    then length (filter (λ stu, stop_id stu = k) stus)
    else 0%nat.
Proof.
  induction stus as [|stu stus IH].
  { by destruct (retained watched stations k). }
  rewrite bind_cons, entries_for_app, length_app, IH, filter_cons.
  unfold emitted_by_update.
  destruct (decide (stop_id stu = k)) as [<-|Hne].
  - destruct (retained watched stations (stop_id stu)); [|done].
    rewrite entries_for_cons, decide_True by done. done.
  - destruct (retained watched stations (stop_id stu));
      [rewrite entries_for_cons, decide_False by done|]; done.
Qed.

Lemma length_entries_for_emitted k feeds :
  length (entries_for k (emitted watched stations current_time feeds))
  = if retained watched stations k
    then length (filter (λ stu, stop_id stu = k) (stop_time_updates_of feeds))
    else 0%nat.
Proof.
  unfold emitted, stop_time_updates_of.
  induction feeds as [|feed feeds IH].
  { by destruct (retained watched stations k). }
  rewrite !bind_cons, entries_for_app, length_app, IH, filter_app, length_app.
  assert (Hfeed :
    length (entries_for k (emitted_by_feed watched stations current_time feed))
    = if retained watched stations k
      then length (filter (λ stu, stop_id stu = k)
                     (entity feed ≫= λ ent,
                        match trip_update ent with
                        | Some tu => stop_time_update tu
                        | None => []
                        end))
      else 0%nat).
  { unfold emitted_by_feed. generalize (header_timestamp feed) as ts. intros ts.
    induction (entity feed) as [|ent ents IHe].
    { by destruct (retained watched stations k). }
    rewrite !bind_cons, entries_for_app, length_app, IHe, filter_app, length_app.
    unfold emitted_by_entity at 1.
    destruct (trip_update ent) as [tu|].
    - rewrite length_entries_for_updates.
      by destruct (retained watched stations k).
    - by destruct (retained watched stations k). }
  rewrite Hfeed. by destruct (retained watched stations k).
Qed.
End Counting.

Lemma retained_ext watched1 watched2 stations k :
  (∀ k, k ∈ watched1 ↔ k ∈ watched2) →
  retained watched1 stations k = retained watched2 stations k.
Proof.
  intros Hsame. unfold retained. f_equal.
  apply bool_decide_ext, Hsame.
Qed.

Lemma emitted_ext watched1 watched2 stations now feeds :
  (∀ k, k ∈ watched1 ↔ k ∈ watched2) →
  emitted watched1 stations now feeds = emitted watched2 stations now feeds.
Proof.
  intros Hsame. unfold emitted. apply list_bind_ext; [|done]. intros feed.
  unfold emitted_by_feed. apply list_bind_ext; [|done]. intros ent.
  unfold emitted_by_entity. destruct (trip_update ent) as [tu|]; [|done].
  apply list_bind_ext; [|done]. intros stu.
  unfold emitted_by_update. by rewrite (retained_ext watched1 watched2).
Qed.

Section Aggregate.
Variable csv_reader : list byte → RowStream.
Variable ParseFromString : list byte → option FeedMessage.
Local Abbreviation update := (update csv_reader ParseFromString).

(** X2.  After a refresh that ran and returned, the entries under a stop
    id are exactly the dictionaries of lines 232-237 made from the
    stop-time updates with that very stop id in the feeds that decoded,
    the stop id being watched and its base a key of the directory: the
    line is the route of the trip, the time of the last update is the
    time of the feed header. *)
Theorem entry_provenance env self self' snapshot stations arrivals k e :
  throttled env self = false →
  update env self = (Ok (), self') →
  data self' = Some snapshot →
  snapshot !! "stations" = Some (Stations stations) →
  snapshot !! "arrivals" = Some (Arrivals arrivals) →
  (∃ entries, arrivals !! k = Some entries ∧ e ∈ entries)
  ↔ ∃ r feed ent tu stu,
      r ∈ pool_responses env ∧ status_code r = 200
      ∧ ParseFromString (content r) = Some feed
      ∧ ent ∈ entity feed ∧ trip_update ent = Some tu
      ∧ stu ∈ stop_time_update tu
      ∧ stop_id stu = k
      ∧ k ∈ watched_stations self
      ∧ is_Some (stations !! Some (drop_last k))
      ∧ e = {| time := arrival_time stu;
               line := route_id tu;
               last_updated := header_timestamp feed;
               time_until := time_until_of (arrival_time stu) (time_time env) |}.
Proof.
  intros Hrun Hupd Hdata Hst Harr.
  destruct (published_inv _ _ _ _ _ _ _ _ Hrun Hupd Hdata Hst Harr) as (_ & -> & _).
  split.
  - intros (entries & Hk & He). rewrite published_arrivals_lookup in Hk.
    destruct (entries_for k _) as [|a l] eqn:Hentries; [done|].
    injection Hk as <-. apply (elem_of_sort_by_time e (a :: l)) in He.
    rewrite <- Hentries in He.
    apply elem_of_entries_for, elem_of_emitted in He
      as (feed & ent & tu & stu & Hfeed & Hent & Htu & Hstu & Hret & -> & ->).
    apply elem_of_decoded in Hfeed as (r & Hr & Hs & Hp).
    unfold retained in Hret. apply andb_prop in Hret as [Hw Hd].
    apply bool_decide_eq_true in Hw, Hd.
    by exists r, feed, ent, tu, stu.
  - intros (r & feed & ent & tu & stu & Hr & Hs & Hp & Hent & Htu & Hstu
            & <- & Hw & Hd & ->).
    assert (Hem : (stop_id stu,
                   make_arrival (time_time env) (header_timestamp feed) (route_id tu) stu)
                  ∈ emitted (watched_stations self) stations (time_time env)
                      (decoded ParseFromString (pool_responses env))).
    { apply elem_of_emitted. exists feed, ent, tu, stu.
      split; [apply elem_of_decoded; by exists r|].
      repeat (split; [done|]). split; [|done].
      unfold retained. by rewrite !bool_decide_eq_true_2. }
    apply elem_of_entries_for in Hem. rewrite published_arrivals_lookup.
    destruct (entries_for _ _) as [|a l] eqn:Hentries; [by apply elem_of_nil in Hem|].
    eexists. split; [done|]. by apply (elem_of_sort_by_time _ (a :: l)).
Qed.

(** X3.  After a refresh that ran and returned, the list under a stop id
    has as many entries as the decoded feeds have stop-time updates with
    that stop id: none is lost and none is entered twice. *)
Theorem entries_count env self self' snapshot stations arrivals k entries :
  throttled env self = false →
  update env self = (Ok (), self') →
  data self' = Some snapshot →
  snapshot !! "stations" = Some (Stations stations) →
  snapshot !! "arrivals" = Some (Arrivals arrivals) →
  arrivals !! k = Some entries →
  length entries
  = length (filter (λ stu, stop_id stu = k)
              (stop_time_updates_of (decoded ParseFromString (pool_responses env)))).
Proof.
  intros Hrun Hupd Hdata Hst Harr Hk.
  destruct (published_inv _ _ _ _ _ _ _ _ Hrun Hupd Hdata Hst Harr) as (_ & -> & _).
  pose proof (published_arrivals_key _ _ _ _ _ _ Hk) as (_ & Hw & Hd).
  rewrite published_arrivals_lookup in Hk.
  destruct (entries_for k _) as [|a l] eqn:Hentries; [done|].
  injection Hk as <-.
  transitivity (length (a :: l)).
  { apply Permutation_length, (sort_by_time_perm (a :: l)). }
  rewrite <- Hentries, length_entries_for_emitted. unfold retained.
  by rewrite !bool_decide_eq_true_2.
Qed.

Lemma published_arrivals_permuted env1 env2 self stations k :
  pool_responses env1 ≡ₚ pool_responses env2 →
  time_time env1 = time_time env2 →
  match published_arrivals ParseFromString env1 self stations !! k,
        published_arrivals ParseFromString env2 self stations !! k with
  | Some l1, Some l2 =>
      l1 ≡ₚ l2
      ∧ ((∀ a b, a ∈ l1 → b ∈ l1 → time a = time b → a = b) → l1 = l2)
  | None, None => True
  | _, _ => False
  end.
Proof.
  intros Hperm Hnow. rewrite !published_arrivals_lookup, <- Hnow.
  assert (Hentries :
    entries_for k (emitted (watched_stations self) stations (time_time env1)
                     (decoded ParseFromString (pool_responses env1)))
    ≡ₚ entries_for k (emitted (watched_stations self) stations (time_time env1)
                        (decoded ParseFromString (pool_responses env2)))).
  { unfold entries_for, emitted, decoded. by rewrite Hperm. }
  destruct (entries_for k (emitted _ _ _ (decoded _ (pool_responses env1))))
    as [|a1 l1] eqn:H1;
  destruct (entries_for k (emitted _ _ _ (decoded _ (pool_responses env2))))
    as [|a2 l2] eqn:H2.
  - done.
  - by apply Permutation_nil_cons in Hentries.
  - symmetry in Hentries. by apply Permutation_nil_cons in Hentries.
  - assert (Hsorted : sort_by_time (a1 :: l1) ≡ₚ sort_by_time (a2 :: l2)).
    { by rewrite !sort_by_time_perm. }
    split; [done|]. intros Hinj.
    apply (StronglySorted_unique_strong by_time);
      [|apply sort_by_time_sorted|apply sort_by_time_sorted|done].
    intros x y Hx Hy Hxy Hyx. apply Hinj; [done| |unfold by_time in *; lia].
    by rewrite Hsorted.
Qed.

(** X4.  The order in which the responses of the pool come back changes
    the published arrivals at most in the order of entries of equal time:
    for two refreshes that differ in that order only, the stations are
    the same, the same stop ids are keys, the lists under a stop id are
    permutations of each other, and they are equal when entries of equal
    time are equal. *)
Theorem response_order_is_immaterial env1 env2 self self1 snapshot1 arrivals1 k :
  throttled env1 self = false →
  throttled env2 self = false →
  stations_reply env1 = stations_reply env2 →
  time_time env1 = time_time env2 →
  pool_responses env1 ≡ₚ pool_responses env2 →
  update env1 self = (Ok (), self1) →
  data self1 = Some snapshot1 →
  snapshot1 !! "arrivals" = Some (Arrivals arrivals1) →
  ∃ self2 snapshot2 arrivals2,
    update env2 self = (Ok (), self2)
    ∧ data self2 = Some snapshot2
    ∧ snapshot2 !! "stations" = snapshot1 !! "stations"
    ∧ snapshot2 !! "arrivals" = Some (Arrivals arrivals2)
    ∧ match arrivals1 !! k, arrivals2 !! k with
      | Some l1, Some l2 =>
          l1 ≡ₚ l2
          ∧ ((∀ a b, a ∈ l1 → b ∈ l1 → time a = time b → a = b) → l1 = l2)
      | None, None => True
      | _, _ => False
      end.
Proof.
  intros Hrun1 Hrun2 Hreply Hnow Hperm Hupd Hdata Harr.
  destruct (update_completed_inv _ _ _ _ _ Hrun1 Hupd) as (stations & Hload & ->).
  simpl in Hdata. injection Hdata as <-.
  rewrite published_snapshot_arrivals in Harr. injection Harr as <-.
  assert (Hload2 : load_stations csv_reader env2 = Ok stations).
  { unfold load_stations in *. by rewrite <- Hreply. }
  exists (completed ParseFromString env2 self stations),
         (published_snapshot ParseFromString env2 self stations),
         (published_arrivals ParseFromString env2 self stations).
  split; [by rewrite update_run, Hrun2, Hload2|]. split; [done|].
  split; [by rewrite !published_snapshot_stations|].
  split; [apply published_snapshot_arrivals|].
  by apply published_arrivals_permuted.
Qed.

(** X5.  Only which stop ids are watched matters, not their order in the
    configured list nor their repetitions: of two objects watching the
    same stop ids, a refresh leaves the same snapshot in both, or raises
    the same exception in both. *)
Theorem watched_list_acts_as_a_set env self1 self2 :
  (∀ k, k ∈ watched_stations self1 ↔ k ∈ watched_stations self2) →
  throttled env self1 = false →
  throttled env self2 = false →
  data (update env self1).2 = data (update env self2).2
  ∨ ∃ e, (update env self1).1 = Raise e ∧ (update env self2).1 = Raise e.
Proof.
  intros Hsame Hrun1 Hrun2. rewrite !update_run, Hrun1, Hrun2.
  destruct (load_stations csv_reader env) as [stations|e]; [left|right; by exists e].
  simpl. unfold published_snapshot, published_arrivals.
  by rewrite !collect_arrivals_group, (emitted_ext _ _ _ _ _ Hsame).
Qed.
End Aggregate.

(** ** The feed fetcher *)

(** The feeds returned are those of the responses that decode, one for
    one and in their order. *)
Lemma decoded_per_response pfs responses :
  Forall2 (λ r feed, pfs (content r) = Some feed)
    (filter (λ r, status_code r = 200 ∧ is_Some (pfs (content r))) responses)
    (decoded pfs responses).
Proof.
  unfold decoded. induction responses as [|r rs IH]; [constructor|].
  rewrite filter_cons.
  change (omap (decodes pfs) (r :: rs))
    with (match decodes pfs r with
          | Some feed => feed :: omap (decodes pfs) rs
          | None => omap (decodes pfs) rs
          end).
  unfold decodes at 1. case_bool_decide as Hstatus.
  - rewrite decide_False by (intros [? _]; done). exact IH.
  - destruct (pfs (content r)) as [feed|] eqn:Hparse.
    + rewrite decide_True by (split; [done | by eexists]). by constructor.
    + rewrite decide_False by (intros [_ [? ?]]; done). exact IH.
Qed.

(** The records logged are those of the other responses, one for one
    and in their order. *)
Lemma failure_log_per_response pfs responses :
  Forall2 (λ r ev,
             match ev with
             | LogNon200 u => status_code r ≠ 200 ∧ u = url r
             | LogParseFailure _ => status_code r = 200 ∧ pfs (content r) = None
             | _ => False
             end)
    (filter (λ r, ¬ (status_code r = 200 ∧ is_Some (pfs (content r)))) responses)
    (failure_log pfs responses).
Proof.
  unfold failure_log. induction responses as [|r rs IH]; [constructor|].
  rewrite filter_cons, bind_cons. unfold failure_record at 1.
  case_bool_decide as Hstatus.
  - rewrite decide_True by (intros [? _]; done). by constructor.
  - destruct (pfs (content r)) as [feed|] eqn:Hparse.
    + rewrite decide_False by (intros Hno; apply Hno; split; [done | by eexists]).
      exact IH.
    + rewrite decide_True by (intros [_ [? ?]]; done). by constructor.
Qed.

(** X6.  [__get_realtime_data] makes one request to the pool, for the nine
    feed ids, and returns normally whatever came back.  Response by
    response, in the order the pool gives them: the responses with status
    200 whose body parses are the ones that give the returned feeds, one
    feed each, the parsed body; every other response gives one record of
    the log, that of line 188 with its url when the status is not 200,
    that of line 196 when the status is 200 and the body does not parse.
    Nothing else of the object changes. *)
Theorem every_response_is_decoded_or_logged pfs env self :
  ∃ feeds logged self',
    get_realtime_data pfs env self = (Ok feeds, self')
    ∧ journal self' = journal self ++ PoolGet FEED_IDS :: logged
    ∧ length FEED_IDS = 9%nat
    ∧ Forall2 (λ r feed, pfs (content r) = Some feed)
        (filter (λ r, status_code r = 200 ∧ is_Some (pfs (content r)))
           (pool_responses env))
        feeds
    ∧ Forall2 (λ r ev,
                 match ev with
                 | LogNon200 u => status_code r ≠ 200 ∧ u = url r
                 | LogParseFailure _ => status_code r = 200 ∧ pfs (content r) = None
                 | _ => False
                 end)
        (filter (λ r, ¬ (status_code r = 200 ∧ is_Some (pfs (content r))))
           (pool_responses env))
        logged
    ∧ data self' = data self
    ∧ throttle_last self' = throttle_last self
    ∧ watched_stations self' = watched_stations self.
Proof.
  exists (decoded pfs (pool_responses env)), (failure_log pfs (pool_responses env)).
  eexists. split; [apply get_realtime_data_run|].
  split; [done|]. split; [done|].
  split; [apply decoded_per_response|].
  split; [apply failure_log_per_response|done].
Qed.

(** ** The rows of the station table *)

Lemma foldl_insert_pairs_notin (l : list (string * string))
    (d : gmap string (option string)) k :
  k ∉ l.*1 → foldl (λ d kv, <[kv.1 := Some kv.2]> d) d l !! k = d !! k.
Proof.
  revert d. induction l as [|[c v] l IH]; intros d Hk; [done|].
  simpl in *. apply not_elem_of_cons in Hk as [Hne Hk].
  rewrite IH by done. by apply lookup_insert_ne.
Qed.

Lemma foldl_insert_pairs_lookup (l : list (string * string))
    (d : gmap string (option string)) k v :
  NoDup l.*1 → (k, v) ∈ l →
  foldl (λ d kv, <[kv.1 := Some kv.2]> d) d l !! k = Some (Some v).
Proof.
  revert d. induction l as [|[c w] l IH]; intros d Hnodup Hin.
  { by apply elem_of_nil in Hin. }
  simpl in *. apply NoDup_cons in Hnodup as [Hc Hnodup].
  apply elem_of_cons in Hin as [Heq|Hin].
  - injection Heq as -> ->. rewrite foldl_insert_pairs_notin by done.
    apply lookup_insert_eq.
  - by apply IH.
Qed.

Lemma foldl_insert_none_notin (l : list string) (d : gmap string (option string)) k :
  k ∉ l → foldl (λ d c, <[c := None]> d) d l !! k = d !! k.
Proof.
  revert d. induction l as [|c l IH]; intros d Hk; [done|].
  simpl. apply not_elem_of_cons in Hk as [Hne Hk].
  rewrite IH by done. by apply lookup_insert_ne.
Qed.

Lemma foldl_insert_none_in (l : list string) (d : gmap string (option string)) k :
  k ∈ l → foldl (λ d c, <[c := None]> d) d l !! k = Some None.
Proof.
  revert d. induction l as [|c l IH]; intros d Hk.
  { by apply elem_of_nil in Hk. }
  simpl. destruct (decide (k ∈ l)) as [Hin|Hnotin]; [by apply IH|].
  apply elem_of_cons in Hk as [->|Hk]; [|done].
  rewrite foldl_insert_none_notin by done. apply lookup_insert_eq.
Qed.

(** X7.  Under a header without repeated names, [row[c]] for the name [c]
    of column [i] does not raise: it is the field [i] of the row, and
    [None] when the row is too short to have one. *)
Theorem row_field_by_column fieldnames fields i c :
  NoDup fieldnames →
  fieldnames !! i = Some c →
  getitem (dict_of_row fieldnames fields) c = Ok (fields !! i).
Proof.
  intros Hnodup Hc. unfold getitem, dict_of_row.
  rewrite <- (take_drop (length fields) fieldnames) in Hnodup.
  apply NoDup_app in Hnodup as (Htake & Hdisjoint & Hdrop).
  destruct (fields !! i) as [v|] eqn:Hv.
  - assert (Hi : (i < length fields)%nat) by by eapply lookup_lt_Some.
    assert (Hin : (c, v) ∈ zip fieldnames fields).
    { by apply (elem_of_lookup_zip_with_2 pair fieldnames fields c v (c, v) i). }
    rewrite foldl_insert_none_notin.
    + rewrite (foldl_insert_pairs_lookup _ _ c v); [done| |done].
      by rewrite fst_zip_take.
    + apply Hdisjoint. apply list_elem_of_lookup. exists i.
      by rewrite lookup_take_lt.
  - apply lookup_ge_None in Hv.
    rewrite foldl_insert_none_in; [done|].
    apply list_elem_of_lookup. exists (i - length fields)%nat.
    rewrite lookup_drop. rewrite <- Hc. f_equal. lia.
Qed.

Lemma read_station_rows_blank_only fieldnames rows acc :
  has_data_row rows = false →
  read_station_rows fieldnames rows acc
  = if ends_in_error rows then Raise CsvError else Ok acc.
Proof.
  induction rows as [|fields rest IH|]; [done| |done].
  destruct fields as [|f fs]; [|done]. intros Hblank. by apply IH.
Qed.

(** X8.  A table with no row after its header, or with blank rows only,
    loads as the empty directory whatever its header says, when the reader
    ends normally; so does a body with no row at all. *)
Theorem table_without_rows_loads_empty csv_reader env self r :
  stations_reply env = Ok r →
  (csv_reader (content r) = EndOfRows
   ∨ ∃ fieldnames rest,
       csv_reader (content r) = Row fieldnames rest
       ∧ has_data_row rest = false ∧ ends_in_error rest = false) →
  (get_stations csv_reader env self).1 = Ok ∅.
Proof.
  intros Hr Hrows. rewrite get_stations_run. simpl. unfold load_stations.
  rewrite Hr. destruct Hrows as [->|(fieldnames & rest & -> & Hblank & Hend)].
  - done.
  - simpl. by rewrite read_station_rows_blank_only, Hend.
Qed.

Lemma read_station_rows_error fieldnames rows acc :
  ends_in_error rows = true →
  ∃ e, read_station_rows fieldnames rows acc = Raise e.
Proof.
  revert acc. induction rows as [|fields rest IH|]; intros acc Herr; [done| |by eexists].
  destruct fields as [|f fs]; [by apply IH|].
  rewrite read_station_rows_data.
  destruct (filter _ required_columns); [by apply IH | by eexists].
Qed.

(** X9.  When the reader fails with [csv.Error] at some row, the load
    raises (that error, or the [KeyError] of an earlier row) and returns
    no directory, however many rows were read before. *)
Theorem reader_error_fails_the_load csv_reader env self r :
  stations_reply env = Ok r →
  ends_in_error (csv_reader (content r)) = true →
  ∃ e, (get_stations csv_reader env self).1 = Raise e
       ∧ (e = CsvError ∨ ∃ c, c ∈ required_columns ∧ e = KeyError c).
Proof.
  intros Hr Herr. rewrite get_stations_run. simpl. unfold load_stations. rewrite Hr.
  destruct (csv_reader (content r)) as [|fieldnames rest|]; [done| |].
  - simpl in *. clear Hr.
    generalize (∅ : StationDirectory) as acc.
    induction rest as [|fields rest IH|]; intros acc; [done| |].
    + destruct fields as [|f fs]; [by apply IH|].
      rewrite read_station_rows_data.
      destruct (filter (λ c, c ∉ fieldnames) required_columns) as [|c cs] eqn:Hf;
        [by apply IH|].
      exists (KeyError c). split; [done|]. right. exists c. split; [|done].
      assert (Hc : c ∈ filter (λ c, c ∉ fieldnames) required_columns)
        by (rewrite Hf; by left).
      by apply list_elem_of_filter in Hc as [_ Hc].
    + exists CsvError. split; [done|by left].
  - exists CsvError. split; [done|by left].
Qed.

(** ** The throttle *)

Lemma app_cons_ne {A} (l r : list A) x : l ++ x :: r ≠ l.
Proof.
  intros Heq. apply (f_equal length) in Heq. rewrite length_app in Heq.
  simpl in Heq. lia.
Qed.

Section Throttle.
Variable csv_reader : list byte → RowStream.
Variable ParseFromString : list byte → option FeedMessage.
Local Abbreviation update := (update csv_reader ParseFromString).

Lemma update_requests_stations env self :
  throttled env self = false →
  ∃ evs, journal (update env self).2 = journal self ++ GetStations :: evs.
Proof.
  intros Hrun. rewrite update_run, Hrun.
  destruct (load_stations csv_reader env); simpl; by eexists.
Qed.

(** X10.  A call of [update] leaves the object as it is, and returns,
    exactly when a refresh completed before and no more than
    [SCAN_INTERVAL] has passed since it completed (the bound included);
    any other call requests the station table. *)
Theorem call_skipped_iff_within_interval env self :
  (update env self = (Ok (), self)
   ↔ ∃ last, throttle_last self = Some last
             ∧ utcnow_check env - last ≤ SCAN_INTERVAL)
  ∧ ((throttle_last self = None
      ∨ ∃ last, throttle_last self = Some last
                ∧ SCAN_INTERVAL < utcnow_check env - last) →
     ∃ evs, journal (update env self).2 = journal self ++ GetStations :: evs).
Proof.
  split; [split|].
  - intros Hupd. destruct (throttled env self) eqn:Hthr.
    + unfold throttled in Hthr. destruct (throttle_last self) as [last|]; [|done].
      exists last. split; [done|].
      apply negb_true_iff, bool_decide_eq_false in Hthr. lia.
    + destruct (update_requests_stations env self Hthr) as [evs Hj].
      rewrite Hupd in Hj. simpl in Hj. symmetry in Hj.
      by apply app_cons_ne in Hj.
  - intros (last & Hlast & Hsoon). by apply (throttled_call_is_noop _ _ _ _ last).
  - intros Hlate. apply update_requests_stations. unfold throttled.
    destruct Hlate as [->|(last & -> & Hlate)]; [done|].
    by rewrite bool_decide_eq_true_2.
Qed.

(** X11.  A refresh that raises does not start the interval: the time
    kept by the throttle and [self.data] are what they were, and the next
    call, made at the same clock reading or later, requests the station
    table again. *)
Theorem failed_refresh_is_retried env1 env2 self self1 e :
  update env1 self = (Raise e, self1) →
  utcnow_check env1 ≤ utcnow_check env2 →
  throttle_last self1 = throttle_last self
  ∧ data self1 = data self
  ∧ ∃ evs, journal (update env2 self1).2 = journal self1 ++ GetStations :: evs.
Proof.
  intros Hupd Hclock. rewrite update_run in Hupd.
  destruct (throttled env1 self) eqn:Hthr; [done|].
  destruct (load_stations csv_reader env1) as [d|e']; [done|].
  injection Hupd as -> <-. split; [done|]. split; [done|].
  apply update_requests_stations.
  unfold throttled in *. simpl.
  destruct (throttle_last self) as [last|]; [|done].
  apply negb_false_iff, bool_decide_eq_true in Hthr.
  rewrite bool_decide_eq_true_2 by lia. done.
Qed.
End Throttle.

(** ** The objects over their life *)

Lemma sorted_after_read k (arrivals : ArrivalsMap) :
  (∀ k' l, arrivals !! k' = Some l → StronglySorted by_time l) →
  ∀ k' l, after_read k arrivals !! k' = Some l → StronglySorted by_time l.
Proof.
  intros Hsorted k' l. unfold after_read, defaultdict_getitem.
  destruct (arrivals !! k) eqn:Hk; simpl; [apply Hsorted|].
  destruct (decide (k = k')) as [->|Hne].
  - rewrite lookup_insert_eq. intros Heq. injection Heq as <-. constructor.
  - rewrite lookup_insert_ne by done. apply Hsorted.
Qed.

Lemma read_station_data_run k self stations (arrivals : ArrivalsMap) :
  data self
  = Some (<["arrivals" := Arrivals arrivals]> {["stations" := Stations stations]}) →
  read_station_data k self
  = (Ok (default [] (arrivals !! k)),
     (set_data (<["arrivals" := Arrivals (after_read k arrivals)]>
                  {["stations" := Stations stations]}) self).2).
Proof.
  intros Hdata. unfold read_station_data, mbind, M_bind, get_self.
  rewrite Hdata, lookup_insert_eq. unfold after_read, defaultdict_getitem.
  destruct (arrivals !! k); simpl; by rewrite insert_insert_eq.
Qed.

Lemma read_station_data_unpublished k self :
  data self = None → read_station_data k self = (Raise TypeError, self).
Proof.
  intros Hdata. unfold read_station_data, mbind, M_bind, get_self. by rewrite Hdata.
Qed.

Lemma well_formed_add_events evs self :
  well_formed self → well_formed (add_events evs self).
Proof. done. Qed.

Lemma well_formed_read k self :
  well_formed self → well_formed (read_station_data k self).2.
Proof.
  intros Hwf. unfold well_formed in Hwf.
  destruct (data self) as [snapshot|] eqn:Hdata.
  - destruct Hwf as (Hlast & stations & arrivals & -> & Hsorted).
    rewrite (read_station_data_run _ _ _ _ Hdata). unfold well_formed. simpl.
    split; [done|]. eexists _, _. split; [done|]. by apply sorted_after_read.
  - rewrite read_station_data_unpublished by done. simpl. unfold well_formed.
    by rewrite Hdata.
Qed.

(** [MTASubwaySensor.update], step by step. *)
Lemma sensor_update_run csv_reader ParseFromString s env self :
  sensor_update csv_reader ParseFromString s env self
  = match update csv_reader ParseFromString env self with
    | (Ok _, self1) =>
        match read_station_data (_station_id s) self1 with
        | (Ok station_data, self2) =>
            match fill_sensor (read_stations_of self2) station_data s with
            | (s', None) => (Ok s', self2)
            | (s', Some e) => (Ok s', add_events [LogSensorError e] self2)
            end
        | (Raise e, self2) => (Raise e, self2)
        end
    | (Raise e, self1) => (Raise e, self1)
    end.
Proof.
  unfold sensor_update, mbind, M_bind.
  destruct (update csv_reader ParseFromString env self) as [[[]|e] self1];
    [|done].
  destruct (read_station_data (_station_id s) self1) as [[station_data|e] self2];
    [|done].
  unfold get_self.
  destruct (fill_sensor (read_stations_of self2) station_data s) as [s' [e|]]; [|done].
  by rewrite emit_run.
Qed.

Section Life.
Variable csv_reader : list byte → RowStream.
Variable ParseFromString : list byte → option FeedMessage.
Local Abbreviation update := (update csv_reader ParseFromString).
Local Abbreviation sensor_update := (sensor_update csv_reader ParseFromString).

Lemma well_formed_completed env self stations :
  well_formed (completed ParseFromString env self stations).
Proof.
  unfold well_formed. simpl. split; [done|]. eexists _, _. split; [done|].
  intros k l. rewrite published_arrivals_lookup.
  destruct (entries_for k _) as [|a entries]; [done|].
  intros Heq. injection Heq as <-. apply (sort_by_time_sorted (a :: entries)).
Qed.

Lemma well_formed_update env self :
  well_formed self → well_formed (update env self).2.
Proof.
  intros Hwf. rewrite update_run. destruct (throttled env self); [done|].
  destruct (load_stations csv_reader env); simpl;
    [apply well_formed_completed | by apply well_formed_add_events].
Qed.

Lemma well_formed_sensor_update s env self :
  well_formed self → well_formed (sensor_update s env self).2.
Proof.
  intros Hwf. rewrite sensor_update_run.
  pose proof (well_formed_update env self Hwf) as Hwf1.
  destruct (update env self) as [[[]|e] self1]; [|done]. simpl in Hwf1.
  pose proof (well_formed_read (_station_id s) self1 Hwf1) as Hwf2.
  destruct (read_station_data (_station_id s) self1) as [[station_data|e] self2];
    [|done].
  simpl in Hwf2.
  by destruct (fill_sensor (read_stations_of self2) station_data s) as [s' [e|]].
Qed.

Lemma well_formed_unit_of_measurement s self :
  well_formed self → well_formed (unit_of_measurement s self).2.
Proof.
  intros Hwf. unfold unit_of_measurement.
  pose proof (well_formed_read (_station_id s) self Hwf) as Hwf'.
  by destruct (read_station_data (_station_id s) self) as [[[|first rest]|e] self'].
Qed.

Lemma configuration_kept_by_read k self :
  api_key (read_station_data k self).2 = api_key self
  ∧ watched_stations (read_station_data k self).2 = watched_stations self.
Proof.
  unfold read_station_data, mbind, M_bind, get_self.
  destruct (data self) as [snapshot|]; [|done].
  destruct (snapshot !! "arrivals") as [[d|a]|]; [done| |done].
  by destruct (defaultdict_getitem k a).
Qed.

Lemma configuration_kept_by_update env self :
  api_key (update env self).2 = api_key self
  ∧ watched_stations (update env self).2 = watched_stations self.
Proof.
  rewrite update_run. destruct (throttled env self); [done|].
  by destruct (load_stations csv_reader env).
Qed.

Lemma configuration_kept_by_call self c :
  api_key (after_call csv_reader ParseFromString self c) = api_key self
  ∧ watched_stations (after_call csv_reader ParseFromString self c)
    = watched_stations self.
Proof.
  destruct c as [env|s env|s]; simpl.
  - apply configuration_kept_by_update.
  - rewrite sensor_update_run.
    pose proof (configuration_kept_by_update env self) as [Hk Hw].
    destruct (update env self) as [[[]|e] self1]; [|done]. simpl in Hk, Hw.
    pose proof (configuration_kept_by_read (_station_id s) self1) as [Hk' Hw'].
    destruct (read_station_data (_station_id s) self1) as [[station_data|e] self2];
      simpl in *; [|by rewrite Hk', Hw'].
    destruct (fill_sensor (read_stations_of self2) station_data s) as [s' [e|]];
      simpl; by rewrite Hk', Hw'.
  - unfold unit_of_measurement.
    pose proof (configuration_kept_by_read (_station_id s) self) as [Hk' Hw'].
    by destruct (read_station_data (_station_id s) self) as [[[|first rest]|e] self'].
Qed.

(** X12.  Whatever calls the host makes on a data object after
    [__init__] (refreshes, sensor updates, reads of the unit), and
    whatever they return: [self.data] is [None] exactly as long as no
    refresh has completed; once set it holds the stations and the
    arrivals, every list of the arrivals being in ascending order of
    time; the key and the watched stations are those given to
    [__init__]. *)
Theorem objects_stay_well_formed key watched calls :
  let self := foldl (after_call csv_reader ParseFromString)
                (MTASubwayData_init key watched) calls in
  well_formed self
  ∧ (data self = None ↔ throttle_last self = None)
  ∧ api_key self = key
  ∧ watched_stations self = watched.
Proof.
  simpl.
  assert (Hinv : ∀ self0,
    well_formed self0 →
    well_formed (foldl (after_call csv_reader ParseFromString) self0 calls)
    ∧ api_key (foldl (after_call csv_reader ParseFromString) self0 calls) = api_key self0
    ∧ watched_stations (foldl (after_call csv_reader ParseFromString) self0 calls)
      = watched_stations self0).
  { induction calls as [|c calls IH]; intros self0 Hwf; [done|]. simpl.
    pose proof (configuration_kept_by_call self0 c) as [Hk Hw].
    destruct (IH (after_call csv_reader ParseFromString self0 c)) as (Hwf' & Hk' & Hw').
    - destruct c as [env|s env|s]; simpl.
      + by apply well_formed_update.
      + by apply well_formed_sensor_update.
      + by apply well_formed_unit_of_measurement.
    - split; [done|]. by rewrite Hk', Hw', Hk, Hw. }
  destruct (Hinv (MTASubwayData_init key watched)) as (Hwf & Hk & Hw); [done|].
  split; [done|]. split; [|done].
  unfold well_formed in Hwf.
  destruct (data (foldl _ _ calls)) as [snapshot|].
  - destruct Hwf as [[last Hlast] _]. rewrite Hlast. split; done.
  - by rewrite Hwf.
Qed.

(** X13.  On a well-formed object, [MTASubwaySensor.update] raises
    exactly when its call of [update] raises, and it raises the same
    exception: whatever goes wrong after the refresh is caught and
    logged. *)
Theorem sensor_update_raises_only_with_update s env self e :
  well_formed self →
  (sensor_update s env self).1 = Raise e ↔ (update env self).1 = Raise e.
Proof.
  intros Hwf. rewrite sensor_update_run.
  pose proof (well_formed_update env self Hwf) as Hwf1.
  pose proof (update_run csv_reader ParseFromString env self) as Hrun.
  destruct (update env self) as [[[]|e'] self1] eqn:Hupd; simpl;
    [|split; intros Heq; injection Heq as ->; reflexivity].
  simpl in Hwf1. unfold well_formed in Hwf1.
  destruct (data self1) as [snapshot|] eqn:Hdata.
  - destruct Hwf1 as (_ & stations & arrivals & -> & _).
    rewrite (read_station_data_run _ _ _ _ Hdata).
    destruct (fill_sensor _ _ s) as [s' [e''|]]; simpl; split; done.
  - exfalso. destruct (throttled env self) eqn:Hthr.
    + injection Hrun as ->. unfold throttled in Hthr. unfold well_formed in Hwf.
      rewrite Hdata in Hwf. by rewrite Hwf in Hthr.
    + destruct (load_stations csv_reader env); [|done].
      injection Hrun as ->. done.
Qed.
End Life.

(** ** The sensor after a refresh *)

Lemma set_data_same snapshot self :
  data self = Some snapshot → (set_data snapshot self).2 = self.
Proof. destruct self. simpl. by intros ->. Qed.

Section SensorFacts.
Variable csv_reader : list byte → RowStream.
Variable ParseFromString : list byte → option FeedMessage.
Local Abbreviation update := (update csv_reader ParseFromString).
Local Abbreviation sensor_update := (sensor_update csv_reader ParseFromString).

(** The sensor update on an object whose refresh returned, as far as the
    [try] block. *)
Lemma sensor_update_published s env self self1 stations (arrivals : ArrivalsMap) :
  update env self = (Ok (), self1) →
  data self1
  = Some (<["arrivals" := Arrivals arrivals]> {["stations" := Stations stations]}) →
  let self2 :=
    (set_data (<["arrivals" := Arrivals (after_read (_station_id s) arrivals)]>
                 {["stations" := Stations stations]}) self1).2 in
  sensor_update s env self
  = match fill_sensor (Ok stations) (default [] (arrivals !! _station_id s)) s with
    | (s', None) => (Ok s', self2)
    | (s', Some e) => (Ok s', add_events [LogSensorError e] self2)
    end.
Proof.
  intros Hupd Hdata. simpl. rewrite sensor_update_run, Hupd.
  rewrite (read_station_data_run _ _ _ _ Hdata).
  unfold read_stations_of. simpl.
  rewrite lookup_insert_ne by done. by rewrite lookup_singleton_eq.
Qed.

(** X14.  After a refresh that returned, the update of a sensor whose
    stop id ends in N or S, has arrivals and names a station with a stop
    name sets the state to the time of the first arrival, which is the
    earliest of the list, keeps the list itself, and labels the sensor
    from the directory: north label and "Uptown" for N, south label and
    "Downtown" for S.  Nothing is logged and the data object is
    untouched. *)
Theorem sensor_shows_earliest_arrival
    s env self self1 stations arrivals first rest station stop :
  well_formed self →
  update env self = (Ok (), self1) →
  data self1
  = Some (<["arrivals" := Arrivals arrivals]> {["stations" := Stations stations]}) →
  arrivals !! _station_id s = Some (first :: rest) →
  stations !! Some (drop_last (_station_id s)) = Some station →
  stop_name station = Some stop →
  ends_with "N" (_station_id s) = true ∨ ends_with "S" (_station_id s) = true →
  ∃ s',
    sensor_update s env self = (Ok s', self1)
    ∧ state s' = Some (time first)
    ∧ (∀ e, e ∈ first :: rest → time first ≤ time e)
    ∧ _station_id s' = _station_id s
    ∧ name s'
      = Some (String.append "MTA: "
                (String.append stop
                   (if ends_with "N" (_station_id s) then " Uptown" else " Downtown")))
    ∧ device_state_attributes s' !! "arrivals"
      = Some (AttrArrivals (Some (first :: rest)))
    ∧ device_state_attributes s' !! "station_name" = Some (AttrText (Some stop))
    ∧ device_state_attributes s' !! "station_direction_label"
      = Some (AttrText (if ends_with "N" (_station_id s)
                        then north_direction_label station
                        else south_direction_label station)).
Proof.
  intros Hwf Hupd Hdata Hk Hstation Hstop Hside.
  pose proof (sensor_update_published s _ _ _ _ _ Hupd Hdata) as Hrun.
  cbv zeta in Hrun. rewrite Hrun, Hk. clear Hrun.
  assert (Hsame : after_read (_station_id s) arrivals = arrivals).
  { unfold after_read, defaultdict_getitem. by rewrite Hk. }
  rewrite Hsame, (set_data_same _ _ Hdata).
  assert (Hearliest : ∀ e, e ∈ first :: rest → time first ≤ time e).
  { pose proof (well_formed_update csv_reader ParseFromString env self Hwf) as Hwf1.
    rewrite Hupd in Hwf1. simpl in Hwf1. unfold well_formed in Hwf1.
    rewrite Hdata in Hwf1. destruct Hwf1 as (_ & d & a & Heq & Hsorted).
    assert (a = arrivals) as ->.
    { apply (f_equal (λ m, m !! "arrivals")) in Heq.
      rewrite !lookup_insert_eq in Heq. congruence. }
    specialize (Hsorted _ _ Hk). apply StronglySorted_inv in Hsorted as [_ Hall].
    rewrite Forall_forall in Hall.
    intros e [->|He]%elem_of_cons; [lia|by apply Hall]. }
  unfold fill_sensor, label_sensor. simpl _station_id.
  assert (HNS : ends_with "N" (_station_id s) = true
                ∨ (ends_with "N" (_station_id s) = false
                   ∧ ends_with "S" (_station_id s) = true)).
  { destruct Hside as [HN|HS]; [by left|].
    destruct (ends_with "N" (_station_id s)) eqn:HN; [by left|by right]. }
  destruct HNS as [HN|[HN HS]]; rewrite HN, ?HS, Hstation; simpl; rewrite Hstop;
    eexists; (split; [done|]); simpl; repeat (split; [done|]); done.
Qed.

(** X15.  After a refresh that returned, the update of a sensor whose
    stop id has no arrival leaves every field of the sensor as it was,
    the state included; it logs an [IndexError], returns normally, and
    leaves the stop id among the published arrivals with the empty
    list. *)
Theorem sensor_without_arrivals_keeps_state s env self self1 stations arrivals :
  update env self = (Ok (), self1) →
  data self1
  = Some (<["arrivals" := Arrivals arrivals]> {["stations" := Stations stations]}) →
  arrivals !! _station_id s = None ∨ arrivals !! _station_id s = Some [] →
  ∃ self2,
    sensor_update s env self = (Ok s, self2)
    ∧ journal self2 = journal self1 ++ [LogSensorError IndexError]
    ∧ data self2
      = Some (<["arrivals" := Arrivals (<[_station_id s := []]> arrivals)]>
                {["stations" := Stations stations]})
    ∧ throttle_last self2 = throttle_last self1.
Proof.
  intros Hupd Hdata Hk.
  pose proof (sensor_update_published s _ _ _ _ _ Hupd Hdata) as Hrun.
  cbv zeta in Hrun. rewrite Hrun. clear Hrun.
  assert (Hread : default [] (arrivals !! _station_id s) = []
                  ∧ after_read (_station_id s) arrivals
                    = <[_station_id s := []]> arrivals).
  { unfold after_read, defaultdict_getitem.
    destruct Hk as [->| Hk]; [done|]. rewrite Hk. simpl.
    split; [done|]. symmetry. by apply insert_id. }
  destruct Hread as [-> ->]. simpl. eexists. split; [done|]. done.
Qed.

(** X16.  After a refresh that returned, the update of a sensor whose
    stop id has arrivals always returns, with the state and the arrivals
    of the sensor set from the list, and the data object as the refresh
    left it.  The labelling fails in three cases, each logged once.  A
    stop id that ends in neither N nor S raises the bad station id
    exception of line 142, and the name, the station name and the
    direction label stay as they were.  A stop id that ends in N or S
    whose base id is not in the directory raises [KeyError] for the base
    id, with the same three fields as they were.  A stop id that ends in
    N or S whose station has no stop name raises [TypeError] at the
    concatenation: the direction label is set by then, from the north
    label for N and the south label for S, the name and the station name
    are not. *)
Theorem sensor_labelling_failure_is_logged
    s env self self1 stations arrivals first rest :
  update env self = (Ok (), self1) →
  data self1
  = Some (<["arrivals" := Arrivals arrivals]> {["stations" := Stations stations]}) →
  arrivals !! _station_id s = Some (first :: rest) →
  ∃ s' self2,
    sensor_update s env self = (Ok s', self2)
    ∧ _state s' = Some (time first)
    ∧ _arrivals s' = Some (first :: rest)
    ∧ _station_id s' = _station_id s
    ∧ data self2 = data self1
    ∧ (ends_with "N" (_station_id s) = false →
       ends_with "S" (_station_id s) = false →
       journal self2
       = journal self1 ++ [LogSensorError (BadStationId (_station_id s))]
       ∧ _name s' = _name s
       ∧ _station_name s' = _station_name s
       ∧ _station_direction_label s' = _station_direction_label s)
    ∧ (ends_with "N" (_station_id s) = true ∨ ends_with "S" (_station_id s) = true →
       stations !! Some (drop_last (_station_id s)) = None →
       journal self2
       = journal self1 ++ [LogSensorError (KeyError (drop_last (_station_id s)))]
       ∧ _name s' = _name s
       ∧ _station_name s' = _station_name s
       ∧ _station_direction_label s' = _station_direction_label s)
    ∧ (∀ station,
         ends_with "N" (_station_id s) = true ∨ ends_with "S" (_station_id s) = true →
         stations !! Some (drop_last (_station_id s)) = Some station →
         stop_name station = None →
         journal self2 = journal self1 ++ [LogSensorError TypeError]
         ∧ _name s' = _name s
         ∧ _station_name s' = _station_name s
         ∧ _station_direction_label s'
           = (if ends_with "N" (_station_id s) then north_direction_label station
              else south_direction_label station)).
Proof.
  intros Hupd Hdata Hk.
  pose proof (sensor_update_published s _ _ _ _ _ Hupd Hdata) as Hrun.
  cbv zeta in Hrun. rewrite Hrun, Hk. clear Hrun.
  assert (Hsame : after_read (_station_id s) arrivals = arrivals).
  { unfold after_read, defaultdict_getitem. by rewrite Hk. }
  rewrite Hsame, (set_data_same _ _ Hdata). simpl fill_sensor.
  unfold label_sensor. simpl _station_id.
  destruct (ends_with "N" (_station_id s)) eqn:HN;
    [|destruct (ends_with "S" (_station_id s)) eqn:HS].
  1,2: destruct (stations !! Some (drop_last (_station_id s))) as [station|] eqn:Hst;
       [destruct (stop_name station) as [stop|] eqn:Hstop|].
  all: eexists _, _; (split; [reflexivity|]); simpl; rewrite ?HN;
       repeat (split; [done|]).
  all: repeat split; intros; destruct_or?; simplify_eq; try done; congruence.
Qed.
End SensorFacts.

(** ** What the sensor shows *)

(** X17.  [unit_of_measurement] never raises.  On published data it is
    the countdown of the first arrival of the stop in decimal followed by
    " min", and [None] when the stop has no arrival; the lookup leaves
    the stop id among the published arrivals, as that of the update does.
    Before anything is published it is [None] and nothing changes. *)
Theorem unit_of_measurement_outcome s self :
  ∃ unit self',
    unit_of_measurement s self = (Ok unit, self')
    ∧ (data self = None → unit = None ∧ self' = self)
    ∧ ∀ stations (arrivals : ArrivalsMap),
        data self
        = Some (<["arrivals" := Arrivals arrivals]> {["stations" := Stations stations]}) →
        unit = match arrivals !! _station_id s with
               | Some (first :: _) =>
                   Some (String.append (pretty (time_until first)) " min")
               | _ => None
               end
        ∧ data self'
          = Some (<["arrivals" := Arrivals (after_read (_station_id s) arrivals)]>
                    {["stations" := Stations stations]})
        ∧ journal self' = journal self.
Proof.
  unfold unit_of_measurement.
  destruct (data self) as [snapshot|] eqn:Hdata.
  - destruct (read_station_data (_station_id s) self)
      as [[[|first rest]|e] self'] eqn:Hread;
      eexists _, _; (split; [done|]); (split; [done|]);
      intros stations arrivals Heq; injection Heq as ->;
      rewrite (read_station_data_run _ _ _ _ Hdata) in Hread;
      injection Hread as Hlist <-;
      destruct (arrivals !! _station_id s) as [[|a l]|]; simpl in Hlist;
      try done; by injection Hlist as -> ->.
  - rewrite read_station_data_unpublished by done.
    eexists _, _. split; [done|]. split; done.
Qed.

Section PictureFacts.
Variable lower : string → string.

(** X18.  [entity_picture] is [None] exactly when the sensor has no list
    of arrivals yet, or an empty one, or when the line of its first
    arrival is the empty string; [str.lower] is taken to give the empty
    string on the empty string only. *)
Theorem entity_picture_none_iff s :
  (∀ t, lower t = "" ↔ t = "") →
  entity_picture lower s = None
  ↔ _arrivals s = None
    ∨ _arrivals s = Some []
    ∨ ∃ first rest, _arrivals s = Some (first :: rest) ∧ line first = "".
Proof.
  intros Hlower. unfold entity_picture.
  destruct (_arrivals s) as [[|first rest]|].
  - split; [auto|done].
  - destruct (lower (line first)) as [|c t] eqn:Hline.
    + apply (proj1 (Hlower _)) in Hline. split; [|done]. intros _. right. right.
      exists first, rest. split; [reflexivity|exact Hline].
    + split; [done|]. intros [?|[?|(f & r & Heq & Hempty)]]; [done|done|].
      injection Heq as <- <-. apply (proj2 (Hlower _)) in Hempty. congruence.
  - split; [auto|done].
Qed.
End PictureFacts.

(** ** [setup_platform] *)

Lemma append_inj_r prefix s1 s2 :
  String.append prefix s1 = String.append prefix s2 → s1 = s2.
Proof.
  induction prefix as [|c prefix IH]; [done|].
  simpl. intros Heq. injection Heq as Heq. by apply IH.
Qed.

Lemma unique_id_inj s1 s2 : unique_id s1 = unique_id s2 → _station_id s1 = _station_id s2.
Proof. apply append_inj_r. Qed.

Section SetupFacts.
Variable csv_reader : list byte → RowStream.
Variable ParseFromString : list byte → option FeedMessage.

(** X19.  [setup_platform] refreshes at once, the throttle of a new
    object letting the first call through.  When the station directory
    load raises, the exception leaves [setup_platform] and no sensor is
    made.  Otherwise it hands over one sensor for each configured station,
    in the order of the configuration, each with its station id and
    nothing else set; their unique ids are distinct when the configured
    stations are; the data object has published and watches the
    configured stations. *)
Theorem setup_platform_outcome key stations env :
  (∀ e, (get_stations csv_reader env (MTASubwayData_init key stations)).1 = Raise e →
        ∃ self', setup_platform csv_reader ParseFromString key stations env
                 = (Raise e, self')
                 ∧ data self' = None)
  ∧ (∀ directory,
       (get_stations csv_reader env (MTASubwayData_init key stations)).1 = Ok directory →
       ∃ sensors self',
         setup_platform csv_reader ParseFromString key stations env = (Ok sensors, self')
         ∧ _station_id <$> sensors = stations
         ∧ (∀ s, s ∈ sensors → s = MTASubwaySensor_init (_station_id s))
         ∧ (NoDup stations → NoDup (unique_id <$> sensors))
         ∧ watched_stations self' = stations
         ∧ well_formed self'
         ∧ ∃ arrivals,
             data self'
             = Some (<["arrivals" := Arrivals arrivals]>
                       {["stations" := Stations directory]})).
Proof.
  unfold setup_platform. rewrite get_stations_run, update_run. simpl.
  split.
  - intros e ->. by eexists.
  - intros directory ->. eexists _, _. split; [done|].
    split. { rewrite <- list_fmap_compose. apply list_fmap_id. }
    split. { by intros s (station & -> & _)%list_elem_of_fmap. }
    split.
    { intros Hnodup. rewrite <- list_fmap_compose.
      apply NoDup_fmap_2; [|done]. intros x y Heq. by apply unique_id_inj in Heq. }
    split; [done|]. split; [apply well_formed_completed|]. by eexists.
Qed.
End SetupFacts.

(** ** The countdown *)

Lemma Zceil_div_le a b : a ≤ b → Zceil_div a 60 ≤ Zceil_div b 60.
Proof.
  intros Hab. unfold Zceil_div.
  pose proof (Z.div_le_mono (- b) (- a) 60 ltac:(lia) ltac:(lia)). lia.
Qed.

Lemma StronglySorted_weaken {A} (R R' : A → A → Prop) l :
  (∀ a b, a ∈ l → b ∈ l → R a b → R' a b) →
  StronglySorted R l → StronglySorted R' l.
Proof.
  intros Himpl Hsorted. induction Hsorted as [|a l Hl IH Hall]; constructor.
  - apply IH. intros x y Hx Hy. apply Himpl; by right.
  - rewrite Forall_forall in *. intros b Hb.
    apply Himpl; [by left|by right|by apply Hall].
Qed.

(** X20.  [math.ceil(float(arrival - now) / 60)] is [n] exactly when
    [arrival - now] is more than [60 * (n - 1)] and at most [60 * n],
    for differences up to [2^53] either way: it is 0 for a train due now
    or gone for less than a minute, and at least 1 for a train still to
    come. *)
Theorem countdown_value_iff arrival now n :
  Z.abs (arrival - now) ≤ 2 ^ 53 →
  time_until_of arrival now = n ↔ 60 * (n - 1) < arrival - now ≤ 60 * n.
Proof.
  intros Hrange. rewrite time_until_of_exact by done.
  pose proof (Zceil_div_spec (arrival - now) 60 ltac:(lia)). lia.
Qed.

Section Countdown.
Variable csv_reader : list byte → RowStream.
Variable ParseFromString : list byte → option FeedMessage.
Local Abbreviation update := (update csv_reader ParseFromString).

(** X21.  In a published list, which is in ascending order of time, the
    countdowns are in ascending order too, as long as every time is
    within [2^53] seconds of the time of the aggregation: the first entry
    is the next train by either reading. *)
Theorem countdowns_ascend env self self' snapshot stations arrivals k entries :
  throttled env self = false →
  update env self = (Ok (), self') →
  data self' = Some snapshot →
  snapshot !! "stations" = Some (Stations stations) →
  snapshot !! "arrivals" = Some (Arrivals arrivals) →
  arrivals !! k = Some entries →
  (∀ e, e ∈ entries → Z.abs (time e - time_time env) ≤ 2 ^ 53) →
  StronglySorted by_time_until entries.
Proof.
  intros Hrun Hupd Hdata Hst Harr Hk Hrange.
  destruct (published_inv _ _ _ _ _ _ _ _ Hrun Hupd Hdata Hst Harr) as (_ & -> & _).
  assert (Hsorted : StronglySorted by_time entries).
  { rewrite published_arrivals_lookup in Hk.
    destruct (entries_for k _) as [|a l]; [done|]. injection Hk as <-.
    apply (sort_by_time_sorted (a :: l)). }
  apply (StronglySorted_weaken by_time); [|done].
  intros a b Ha Hb Hab. unfold by_time, by_time_until in *.
  rewrite (published_arrivals_entry _ _ _ _ _ _ _ Hk Ha).
  rewrite (published_arrivals_entry _ _ _ _ _ _ _ Hk Hb).
  rewrite !time_until_of_exact by auto. apply Zceil_div_le. lia.
Qed.
End Countdown.

(** ** The further properties at work on the concrete world *)

Lemma entry_provenance_witness :
  ∃ entries,
    Demo.arrivals !! "101N" = Some entries
    ∧ {| time := 930; line := "3"; last_updated := 1000;
         time_until := time_until_of 930 (time_time Demo.env) |} ∈ entries.
Proof.
  apply (entry_provenance Demo.csv_reader Demo.ParseFromString
           Demo.env Demo.fresh Demo.refreshed Demo.snapshot Demo.directory
           Demo.arrivals "101N").
  - reflexivity.
  - vm_compute. reflexivity.
  - reflexivity.
  - vm_compute. reflexivity.
  - vm_compute. reflexivity.
  - exists Demo.good, Demo.feed,
      {| trip_update :=
           Some {| route_id := "3";
                   stop_time_update := [ {| stop_id := "101N"; arrival_time := 930 |} ] |} |},
      {| route_id := "3";
         stop_time_update := [ {| stop_id := "101N"; arrival_time := 930 |} ] |},
      {| stop_id := "101N"; arrival_time := 930 |}.
    split; [right; left|]. split; [reflexivity|]. split; [reflexivity|].
    split; [do 3 right; left|]. split; [reflexivity|]. split; [left|].
    split; [reflexivity|]. split; [left|].
    split; [vm_compute; eexists; reflexivity|reflexivity].
Defined.

Lemma entries_count_witness :
  length Demo.entries
  = length (filter (λ stu, stop_id stu = "101N")
              (stop_time_updates_of
                 (decoded Demo.ParseFromString (pool_responses Demo.env)))).
Proof.
  apply (entries_count Demo.csv_reader Demo.ParseFromString
           Demo.env Demo.fresh Demo.refreshed Demo.snapshot Demo.directory
           Demo.arrivals "101N" Demo.entries).
  - reflexivity.
  - vm_compute. reflexivity.
  - reflexivity.
  - vm_compute. reflexivity.
  - vm_compute. reflexivity.
  - vm_compute. reflexivity.
Defined.

Lemma response_order_is_immaterial_witness :
  ∃ self2 snapshot2 arrivals2,
    update Demo.csv_reader Demo.ParseFromString Demo.env_reordered Demo.fresh
    = (Ok (), self2)
    ∧ data self2 = Some snapshot2
    ∧ snapshot2 !! "arrivals" = Some (Arrivals arrivals2)
    ∧ match Demo.arrivals !! "101N", arrivals2 !! "101N" with
      | Some l1, Some l2 => l1 ≡ₚ l2
      | None, None => True
      | _, _ => False
      end.
Proof.
  destruct (response_order_is_immaterial Demo.csv_reader Demo.ParseFromString
              Demo.env Demo.env_reordered Demo.fresh Demo.refreshed Demo.snapshot
              Demo.arrivals "101N")
    as (self2 & snapshot2 & arrivals2 & Hupd & Hdata & _ & Harr & Hlists).
  - reflexivity.
  - reflexivity.
  - reflexivity.
  - reflexivity.
  - simpl. etrans; [apply Permutation_swap|]. apply Permutation_skip, Permutation_swap.
  - vm_compute. reflexivity.
  - reflexivity.
  - vm_compute. reflexivity.
  - exists self2, snapshot2, arrivals2.
    split; [exact Hupd|]. split; [exact Hdata|]. split; [exact Harr|].
    destruct (Demo.arrivals !! "101N"), (arrivals2 !! "101N"); try exact Hlists.
    exact (proj1 Hlists).
Defined.

Lemma watched_list_acts_as_a_set_witness :
  data (update Demo.csv_reader Demo.ParseFromString Demo.env Demo.fresh).2
  = data (update Demo.csv_reader Demo.ParseFromString Demo.env Demo.fresh_shuffled).2.
Proof.
  destruct (watched_list_acts_as_a_set Demo.csv_reader Demo.ParseFromString
              Demo.env Demo.fresh Demo.fresh_shuffled) as [Hsame|(e & Hraise & _)].
  - intros k. simpl. rewrite !elem_of_cons, !elem_of_nil. tauto.
  - reflexivity.
  - reflexivity.
  - exact Hsame.
  - exfalso. revert Hraise. vm_compute. discriminate.
Defined.

Lemma row_field_by_column_witness :
  getitem (dict_of_row Demo.header ["101"; "293"]) "Complex ID" = Ok (Some "293")
  ∧ getitem (dict_of_row Demo.header ["101"; "293"]) "Stop Name" = Ok None.
Proof.
  assert (Hnodup : NoDup Demo.header).
  { apply (bool_decide_unpack _). vm_compute. exact I. }
  split.
  - apply (row_field_by_column Demo.header ["101"; "293"] 1 "Complex ID" Hnodup).
    reflexivity.
  - apply (row_field_by_column Demo.header ["101"; "293"] 2 "Stop Name" Hnodup).
    reflexivity.
Defined.

Lemma table_without_rows_loads_empty_witness :
  (get_stations Demo.csv_reader Demo.env_outage Demo.fresh).1 = Ok ∅.
Proof.
  apply (table_without_rows_loads_empty Demo.csv_reader Demo.env_outage Demo.fresh
           Demo.outage).
  - reflexivity.
  - right. exists ["Service Unavailable"], EndOfRows.
    split; [vm_compute; reflexivity|]. split; reflexivity.
Defined.

Lemma reader_error_fails_the_load_witness :
  ∃ e, (get_stations Demo.failing_reader Demo.env Demo.fresh).1 = Raise e.
Proof.
  destruct (reader_error_fails_the_load Demo.failing_reader Demo.env Demo.fresh
              Demo.table) as (e & Hraise & _).
  - reflexivity.
  - reflexivity.
  - exists e. exact Hraise.
Defined.

Lemma failed_refresh_is_retried_witness :
  ∃ self1 evs,
    update Demo.csv_reader Demo.ParseFromString Demo.env_offline Demo.fresh
    = (Raise RequestException, self1)
    ∧ throttle_last self1 = None
    ∧ journal (update Demo.csv_reader Demo.ParseFromString Demo.env_offline self1).2
      = journal self1 ++ GetStations :: evs.
Proof.
  destruct (failed_refresh_is_retried Demo.csv_reader Demo.ParseFromString
              Demo.env_offline Demo.env_offline Demo.fresh
              (add_events [GetStations] Demo.fresh) RequestException)
    as (Hlast & _ & evs & Hjournal).
  - vm_compute. reflexivity.
  - reflexivity.
  - exists (add_events [GetStations] Demo.fresh), evs.
    split; [vm_compute; reflexivity|]. split; [exact Hlast | exact Hjournal].
Defined.

Lemma sensor_update_raises_only_with_update_witness :
  (sensor_update Demo.csv_reader Demo.ParseFromString
     (MTASubwaySensor_init "101N") Demo.env_offline Demo.fresh).1
  = Raise RequestException.
Proof.
  apply (sensor_update_raises_only_with_update Demo.csv_reader Demo.ParseFromString
           (MTASubwaySensor_init "101N") Demo.env_offline Demo.fresh RequestException).
  - reflexivity.
  - vm_compute. reflexivity.
Defined.

Lemma sensor_shows_earliest_arrival_witness :
  ∃ s',
    sensor_update Demo.csv_reader Demo.ParseFromString
      (MTASubwaySensor_init "101N") Demo.env Demo.fresh
    = (Ok s', Demo.refreshed)
    ∧ state s' = Some 930
    ∧ name s' = Some "MTA: Van Cortlandt Park - 242 St Uptown".
Proof.
  destruct (sensor_shows_earliest_arrival Demo.csv_reader Demo.ParseFromString
              (MTASubwaySensor_init "101N") Demo.env Demo.fresh Demo.refreshed
              Demo.directory Demo.arrivals
              {| time := 930; line := "3"; last_updated := 1000; time_until := -1 |}
              [ {| time := 1030; line := "2"; last_updated := 1000; time_until := 1 |};
                {| time := 1090; line := "1"; last_updated := 1000; time_until := 2 |};
                {| time := 1090; line := "2"; last_updated := 1000; time_until := 2 |} ]
              {| stop_name := Some "Van Cortlandt Park - 242 St";
                 south_direction_label := Some "";
                 north_direction_label := Some "Manhattan";
                 complex_id := Some "293" |}
              "Van Cortlandt Park - 242 St")
    as (s' & Hupd & Hstate & _ & _ & Hname & _).
  - reflexivity.
  - vm_compute. reflexivity.
  - reflexivity.
  - vm_compute. reflexivity.
  - vm_compute. reflexivity.
  - reflexivity.
  - left. reflexivity.
  - exists s'. split; [exact Hupd|]. split; [exact Hstate | exact Hname].
Defined.

Lemma sensor_without_arrivals_keeps_state_witness :
  ∃ self2,
    sensor_update Demo.csv_reader Demo.ParseFromString
      (MTASubwaySensor_init "103S") Demo.env Demo.fresh
    = (Ok (MTASubwaySensor_init "103S"), self2)
    ∧ journal self2 = journal Demo.refreshed ++ [LogSensorError IndexError].
Proof.
  destruct (sensor_without_arrivals_keeps_state Demo.csv_reader Demo.ParseFromString
              (MTASubwaySensor_init "103S") Demo.env Demo.fresh Demo.refreshed
              Demo.directory Demo.arrivals)
    as (self2 & Hupd & Hjournal & _).
  - vm_compute. reflexivity.
  - reflexivity.
  - left. vm_compute. reflexivity.
  - exists self2. split; [exact Hupd | exact Hjournal].
Defined.

Lemma sensor_labelling_failure_is_logged_witness :
  ∃ s' self2,
    sensor_update Demo.csv_reader Demo.parse_odd
      (MTASubwaySensor_init "101X") Demo.env Demo.fresh_odd
    = (Ok s', self2)
    ∧ _state s' = Some 1090
    ∧ _name s' = None
    ∧ journal self2
      = journal (update Demo.csv_reader Demo.parse_odd Demo.env Demo.fresh_odd).2
        ++ [LogSensorError (BadStationId "101X")].
Proof.
  destruct (sensor_labelling_failure_is_logged Demo.csv_reader Demo.parse_odd
              (MTASubwaySensor_init "101X") Demo.env Demo.fresh_odd
              (update Demo.csv_reader Demo.parse_odd Demo.env Demo.fresh_odd).2
              Demo.directory Demo.arrivals_odd
              {| time := 1090; line := "1"; last_updated := 1000; time_until := 2 |} [])
    as (s' & self2 & Hupd & Hstate & _ & _ & _ & Hbad & _).
  - vm_compute. reflexivity.
  - vm_compute. reflexivity.
  - vm_compute. reflexivity.
  - destruct Hbad as (Hlog & Hname & _); [reflexivity | reflexivity |].
    exists s', self2. split; [exact Hupd|]. split; [exact Hstate|].
    split; [exact Hname | exact Hlog].
Defined.

Lemma entity_picture_none_iff_witness :
  entity_picture Demo.lower (MTASubwaySensor_init "101N") = None.
Proof.
  apply (entity_picture_none_iff Demo.lower (MTASubwaySensor_init "101N")).
  - intros t. destruct t; split; intros Heq; (reflexivity || discriminate Heq).
  - left. reflexivity.
Defined.

Lemma countdown_value_iff_witness : time_until_of 1090 1000 = 2.
Proof.
  apply (countdown_value_iff 1090 1000 2).
  - vm_compute. discriminate.
  - split; vm_compute; (reflexivity || discriminate).
Defined.

Lemma countdowns_ascend_witness : StronglySorted by_time_until Demo.entries.
Proof.
  apply (countdowns_ascend Demo.csv_reader Demo.ParseFromString
           Demo.env Demo.fresh Demo.refreshed Demo.snapshot Demo.directory
           Demo.arrivals "101N" Demo.entries).
  - reflexivity.
  - vm_compute. reflexivity.
  - reflexivity.
  - vm_compute. reflexivity.
  - vm_compute. reflexivity.
  - vm_compute. reflexivity.
  - intros e He. unfold Demo.entries in He.
    repeat (apply elem_of_cons in He as [->|He]; [vm_compute; discriminate|]).
    by apply elem_of_nil in He.
Defined.

Lemma call_skipped_iff_within_interval_witness :
  update Demo.csv_reader Demo.ParseFromString Demo.env_soon Demo.refreshed
  = (Ok (), Demo.refreshed)
  ∧ ∃ evs,
      journal (update Demo.csv_reader Demo.ParseFromString Demo.env Demo.fresh).2
      = journal Demo.fresh ++ GetStations :: evs.
Proof.
  split.
  - apply (proj1 (call_skipped_iff_within_interval Demo.csv_reader
                    Demo.ParseFromString Demo.env_soon Demo.refreshed)).
    eexists. split; [reflexivity|]. vm_compute. discriminate.
  - apply (proj2 (call_skipped_iff_within_interval Demo.csv_reader
                    Demo.ParseFromString Demo.env Demo.fresh)).
    left. reflexivity.
Defined.

Lemma setup_platform_outcome_witness :
  ∃ sensors self',
    setup_platform Demo.csv_reader Demo.ParseFromString
      "key" ["101N"; "999N"; "103S"] Demo.env
    = (Ok sensors, self')
    ∧ _station_id <$> sensors = ["101N"; "999N"; "103S"]
    ∧ NoDup (unique_id <$> sensors).
Proof.
  destruct (proj2 (setup_platform_outcome Demo.csv_reader Demo.ParseFromString
                     "key" ["101N"; "999N"; "103S"] Demo.env) Demo.directory)
    as (sensors & self' & Hsetup & Hids & _ & Hunique & _).
  - vm_compute. reflexivity.
  - exists sensors, self'. split; [exact Hsetup|]. split; [exact Hids|].
    apply Hunique. apply (bool_decide_unpack _). vm_compute. exact I.
Defined.
